(** * ConvoLyzer: the audio transcription pipeline

    A shallow embedding of the transcription code of the repository:

    - [WhisperService.convertToFloat32Array], [transcribeWithSarvam] and
      [transcribeAudio] of [src/services/AudioAnalysisService.ts];
    - [transcribeWithWhisper] of the Express server;
    - further on, [loadModel], [transcribeLocally] and
      [analyzeTranscription] of the same service file, the
      [/api/transcribe] route and the [numQuestions] validation of the
      server, and [generateInterviewQuestions] of
      [server/question-generator.ts].

    Conventions of the embedding.

    - A JavaScript number that holds a sample, a time or a ratio is an exact
      rational ([Q]); the three non-finite values a division can produce are
      kept apart in [jsnum], so that a division by zero stays visible in the
      model instead of being absorbed by [Qdiv].  Rounding to binary32 or
      binary64 is not modelled there; every concrete run below uses dyadic
      values on which the floating-point operations are exact.  Where the
      rounding decides the answer, the length of the resampled buffer, the
      arithmetic is taken in binary64 ([Binary64], [Resampler64]).
    - A thrown [Error] is a value of [JsError]; a function that can throw
      returns a sum, or runs in the monad [M] below, which also records the
      calls made to the transcription backends.
    - Optional properties of a JSON object are [option] fields; the [||] and
      [?.] operators are written out with JavaScript's truthiness. *)

From Stdlib Require Import String Ascii List Bool.
From Stdlib Require Import ZArith NArith QArith Qround Qabs Qpower.
From Stdlib Require Import Lia Lqa.
From Stdlib Require DecimalString.
From Stdlib Require PrimFloat FloatOps Uint63.
Import ListNotations.

Local Open Scope string_scope.

(* ================================================================= *)
(** ** JavaScript values shared by the services *)

Module Js.

(** A thrown [Error]: its [message], and the two things
    [axios.isAxiosError] and the handler of [transcribeAudio] look at. *)
Record JsError := mkError {
  message : string;
  isAxiosError : bool;
  code : option string;
  response_data_message : option string
}.

(** [new Error(msg)] *)
Definition Error (msg : string) : JsError :=
  {| message := msg; isAxiosError := false;
     code := None; response_data_message := None |}.

(** Truthiness of a string-valued optional property: [undefined], [null]
    and [""] are falsy. *)
Definition truthy_str (o : option string) : option string :=
  match o with
  | Some EmptyString => None
  | Some s => Some s
  | None => None
  end.

(** Truthiness of a number-valued optional property: [undefined] and [0]
    are falsy. *)
Definition truthy_num (o : option Q) : option Q :=
  match o with
  | Some q => if Qeq_bool q 0 then None else Some q
  | None => None
  end.

(** [a || b] where [a] has already been reduced to its truthy part. *)
Definition or_else {A : Type} (a : option A) (b : A) : A :=
  match a with
  | Some x => x
  | None => b
  end.

Definition or_opt {A : Type} (a b : option A) : option A :=
  match a with
  | Some x => Some x
  | None => b
  end.

(** White space removed by [String.prototype.trim], on the ASCII range:
    TAB, LF, VT, FF, CR and SPACE.  ([trim] also removes U+00A0, U+FEFF,
    the line separators and the Unicode space separators, which ASCII
    text does not contain; a statement that needs [trim] to stop at a
    character assumes the text to be ASCII.) *)
Definition is_white_space (c : ascii) : bool :=
  let n := nat_of_ascii c in
  (Nat.eqb n 9 || Nat.eqb n 10 || Nat.eqb n 11 || Nat.eqb n 12
   || Nat.eqb n 13 || Nat.eqb n 32)%bool.

Fixpoint trimStart (s : string) : string :=
  match s with
  | EmptyString => EmptyString
  | String c s' => if is_white_space c then trimStart s' else s
  end.

(** [trimEnd] keeps a character when it is not white space or when
    something remains after it. *)
Fixpoint trimEnd (s : string) : string :=
  match s with
  | EmptyString => EmptyString
  | String c s' =>
      match trimEnd s' with
      | EmptyString => if is_white_space c then EmptyString
                       else String c EmptyString
      | rest => String c rest
      end
  end.

Definition trim (s : string) : string := trimEnd (trimStart s).

(** [s.split(' ').length]: one more than the number of spaces. *)
Fixpoint split_space_length (s : string) : nat :=
  match s with
  | EmptyString => 1
  | String c s' =>
      if Ascii.eqb c " "%char then S (split_space_length s')
      else split_space_length s'
  end.

(** The result of a JavaScript division of two finite numbers. *)
Inductive jsnum :=
| Fin (q : Q)
| PosInfinity
| NegInfinity
| NaN.

(** [a / b] for finite [a] and a finite, non-negative [b] (a zero [b] is
    [+0]). *)
Definition div (a b : Q) : jsnum :=
  if Qeq_bool b 0 then
    if Qeq_bool a 0 then NaN
    else if Qle_bool 0 a then PosInfinity else NegInfinity
  else Fin (a / b).

End Js.

(* ================================================================= *)
(** ** The canonical result *)

Record TranscriptionChunk := mkChunk {
  chunk_text : string;
  chunk_start : Q;
  chunk_end : Q
}.

Record TranscriptionResult := mkResult {
  text : string;
  chunks : list TranscriptionChunk
}.

(* ================================================================= *)
(** ** [WhisperService.transcribeAudio] *)

Module Orchestrator.
Import Js.

(** The [File] of the browser, as far as the service reads it. *)
Record File := mkFile {
  file_type : string;
  file_size : N
}.

(** [response.data] of the POST to [/api/transcribe]. *)
Record ApiData := mkApiData {
  data_text : option string;
  data_chunks : option (list TranscriptionChunk)
}.

(** The calls made to the two transcription backends. *)
Inductive Event :=
| ApiPost (f : File)
| LocalTranscription (f : File).

Definition Trace := list Event.

(** Computations that can throw and that log backend calls; the log
    survives a throw. *)
Definition M (A : Type) : Type := Trace -> (JsError + A) * Trace.

Definition ret {A} (x : A) : M A := fun t => (inr x, t).

Definition bind {A B} (c : M A) (k : A -> M B) : M B :=
  fun t =>
    match c t with
    | (inl e, t') => (inl e, t')
    | (inr x, t') => k x t'
    end.

Definition throw {A} (e : JsError) : M A := fun t => (inl e, t).

(** [try { c } catch (e) { h e }] *)
Definition try_catch {A} (c : M A) (h : JsError -> M A) : M A :=
  fun t =>
    match c t with
    | (inl e, t') => h e t'
    | (inr x, t') => (inr x, t')
    end.

(** A call to a backend: logged, then it returns or throws as the
    backend does. *)
Definition call {A} (ev : Event) (outcome : JsError + A) : M A :=
  fun t => (outcome, (t ++ [ev])%list).

Notation "x <- c ;; k" := (bind c (fun x => k))
  (at level 61, c at next level, right associativity).

(** The two backends as [transcribeAudio] sees them: what the POST
    answers ([response.data], absent when the body is empty), and what
    [transcribeLocally] answers. *)
Record Backends := mkBackends {
  axios_post : File -> JsError + option ApiData;
  transcribeLocally : File -> JsError + TranscriptionResult
}.

Definition supportedFormats : list string :=
  ["audio/wav"; "audio/mp3"; "audio/mpeg"].

(** [25 * 1024 * 1024] *)
Definition maxSize : N := (25 * 1024 * 1024)%N.

(** [supportedFormats.some(format => audioFile.type.startsWith(format))] *)
Definition isSupported (audioFile : File) : bool :=
  existsb (fun format => String.prefix format (file_type audioFile))
          supportedFormats.

Definition unsupportedFormatError : JsError :=
  Error "Please upload a WAV or MP3 file.".

Definition fileTooLargeError : JsError :=
  Error "File too large. Maximum size is 25MB.".

(** The innermost [try]: the POST, and the early [return] when
    [response.data?.text] is truthy.  [Some r] stands for that [return],
    [None] for falling through to the code after the [try]. *)
Definition tryApi (B : Backends) (audioFile : File)
  : M (option TranscriptionResult) :=
  try_catch
    (data <- call (ApiPost audioFile) (axios_post B audioFile) ;;
     match truthy_str (match data with
                       | Some d => data_text d
                       | None => None
                       end), data with
     | Some t, Some d =>
         ret (Some {| text := t;
                      chunks := or_else (data_chunks d) [] |})
     | _, _ => ret None
     end)
    (fun apiError => ret None).

(** The handler of the outermost [catch]. *)
Definition outerHandler (error : JsError) : M TranscriptionResult :=
  if isAxiosError error then
    match code error with
    | Some "ECONNABORTED" =>
        throw (Error "Transcription timed out. Please try a shorter audio file.")
    | _ =>
        throw (Error (or_else (truthy_str (response_data_message error))
                              "Failed to transcribe audio. Please try again."))
    end
  else throw error.

Definition transcribeAudio (B : Backends) (audioFile : File)
  : M TranscriptionResult :=
  try_catch
    (if negb (isSupported audioFile) then throw unsupportedFormatError
     else if (maxSize <? file_size audioFile)%N then throw fileTooLargeError
     else
       try_catch
         (early <- tryApi B audioFile ;;
          match early with
          | Some r => ret r
          | None =>
              call (LocalTranscription audioFile)
                   (transcribeLocally B audioFile)
          end)
         (fun processingError =>
            throw (Error ("Failed to process audio: "
                          ++ message processingError))))
    outerHandler.

(** A call from a fresh log. *)
Definition run (B : Backends) (audioFile : File)
  : (JsError + TranscriptionResult) * Trace :=
  transcribeAudio B audioFile [].

(** What a call answers once the fallback is reached: the result of
    [transcribeLocally], or its error behind the prefix of the inner
    [catch]. *)
Definition localOutcome (B : Backends) (f : File)
  : JsError + TranscriptionResult :=
  match transcribeLocally B f with
  | inl e => inl (Error ("Failed to process audio: " ++ message e))
  | inr r => inr r
  end.

End Orchestrator.

(* ================================================================= *)
(** ** [WhisperService.convertToFloat32Array] *)

Module SignalNormalizer.
Import Js.

Local Open Scope Q_scope.

(** What [decodeAudioData] hands back, as far as the service reads it:
    the sample rate in Hz and the samples of channel 0. *)
Record AudioBuffer := mkAudioBuffer {
  sampleRate : positive;
  channelData0 : list Q
}.

(** [a > b] on numbers. *)
Definition Qgt_bool (a b : Q) : bool := negb (Qle_bool a b).

(** The body of the first loop. *)
Definition maxStep (maxAbsValue sample : Q) : Q :=
  let absValue := Qabs sample in
  if Qgt_bool absValue maxAbsValue then absValue else maxAbsValue.

(** The first loop: the largest [Math.abs(rawData[i])], from 0. *)
Definition maxAbs (rawData : list Q) : Q :=
  fold_left maxStep rawData 0.

(** [maxAbsValue = maxAbsValue || 1] *)
Definition orOne (maxAbsValue : Q) : Q :=
  if Qeq_bool maxAbsValue 0 then 1 else maxAbsValue.

(** The second loop: [normalizedData[i] = rawData[i] / maxAbsValue]. *)
Definition normalizedData (rawData : list Q) : list jsnum :=
  let maxAbsValue := orOne (maxAbs rawData) in
  map (fun sample => div sample maxAbsValue) rawData.

(** The values the second loop stores when its divisor is not zero. *)
Definition scaledSamples (rawData : list Q) : list Q :=
  map (fun sample => sample / orOne (maxAbs rawData)) rawData.

Definition targetRate : positive := 16000%positive.

(** [16000 / audioBuffer.sampleRate] *)
Definition resampleRatio (rate : positive) : Q :=
  inject_Z (Z.pos targetRate) / inject_Z (Z.pos rate).

(** [Math.floor(normalizedData.length * resampleRatio)], in exact
    arithmetic; [Resampler64.resampledLength] is the same length in
    binary64. *)
Definition resampledLength (len : nat) (rate : positive) : Z :=
  Qfloor (inject_Z (Z.of_nat len) * resampleRatio rate).

(** [Math.floor(i / resampleRatio)], in exact arithmetic. *)
Definition originalIndex (i : nat) (rate : positive) : Z :=
  Qfloor (inject_Z (Z.of_nat i) / resampleRatio rate).

(** The third loop.  Reading a typed array past its end gives
    [undefined], which a [Float32Array] stores as [NaN]. *)
Definition resampledData (rate : positive) (normalized : list jsnum)
  : list jsnum :=
  map (fun i => nth (Z.to_nat (originalIndex i rate)) normalized NaN)
      (seq 0 (Z.to_nat (resampledLength (length normalized) rate))).

Definition processingError : JsError :=
  Error "Failed to process audio file. Please try a different file.".

(** The function, given the outcome of [decodeAudioData]. *)
Definition convertToFloat32Array (decoded : JsError + AudioBuffer)
  : JsError + list jsnum :=
  match decoded with
  | inl _ => inl processingError
  | inr audioBuffer =>
      let normalized := normalizedData (channelData0 audioBuffer) in
      if negb (Pos.eqb (sampleRate audioBuffer) targetRate)
      then inr (resampledData (sampleRate audioBuffer) normalized)
      else inr normalized
  end.

(** A stored sample that is the number zero. *)
Definition isZero (y : jsnum) : bool :=
  match y with
  | Fin q => Qeq_bool q 0
  | _ => false
  end.

(** [Math.round]: halves go up. *)
Definition round (x : Q) : Z := Qfloor (x + (1 # 2)).

End SignalNormalizer.

(* ================================================================= *)
(** ** [WhisperService.transcribeWithSarvam] *)

Module Sarvam.
Import Js.

Local Open Scope Q_scope.

(** A segment of the service's answer, with the properties the code
    reads.  The body is taken to be typed as the service documents it:
    [segments] and [chunks] are arrays of objects, [text] and
    [transcript] are strings, the times are numbers.  On a body of
    another shape [segments.map] or [text.trim] throws a [TypeError],
    which the [catch] throws again; these calls are outside the model. *)
Record RawSegment := mkRawSegment {
  seg_text : option string;
  seg_transcript : option string;
  seg_start : option Q;
  seg_end : option Q;
  seg_timestamp : option (list Q)
}.

(** The JSON body of the answer. *)
Record SarvamData := mkSarvamData {
  d_text : option string;
  d_transcript : option string;
  d_transcription : option string;
  d_segments : option (list RawSegment);
  d_chunks : option (list RawSegment)
}.

Record Response := mkResponse {
  ok : bool;
  status : N;
  json : JsError + SarvamData
}.

(** [segment.timestamp?.[k]] *)
Definition timestampAt (segment : RawSegment) (k : nat) : option Q :=
  match seg_timestamp segment with
  | Some ts => nth_error ts k
  | None => None
  end.

(** The callback of [segments.map]. *)
Definition processSegment (segment : RawSegment) : TranscriptionChunk :=
  let text :=
    or_else (or_opt (truthy_str (seg_text segment))
                    (truthy_str (seg_transcript segment))) ""%string in
  let start :=
    or_else (or_opt (truthy_num (seg_start segment))
                    (truthy_num (timestampAt segment 0))) 0 in
  let end_ :=
    or_else (or_opt (truthy_num (seg_end segment))
                    (truthy_num (timestampAt segment 1)))
            (start + inject_Z (Z.of_nat (split_space_length text)) * (3 # 10)) in
  {| chunk_text := trim text; chunk_start := start; chunk_end := end_ |}.

Definition processedSegments (segments : list RawSegment)
  : list TranscriptionChunk :=
  map processSegment segments.

(** [data.segments || data.chunks || []] *)
Definition rawSegments (data : SarvamData) : list RawSegment :=
  or_else (or_opt (d_segments data) (d_chunks data)) [].

Definition statusError (st : N) : JsError :=
  Error ("Transcription service error ("
         ++ DecimalString.NilZero.string_of_uint (N.to_uint st)
         ++ "). Please try again.")%string.

(** The function, given the configured key and the outcome of [fetch].
    Everything thrown inside the [try] is an [Error], which the [catch]
    throws again unchanged. *)
Definition transcribeWithSarvam (SARVAM_API_KEY : option string)
    (fetched : JsError + Response) : JsError + TranscriptionResult :=
  match truthy_str SARVAM_API_KEY with
  | None => inl (Error "Sarvam API key is not configured")
  | Some _ =>
      match fetched with
      | inl error => inl error
      | inr response =>
          if negb (ok response) then inl (statusError (status response))
          else
            match json response with
            | inl error => inl error
            | inr data =>
                match or_opt (truthy_str (d_text data))
                             (or_opt (truthy_str (d_transcript data))
                                     (truthy_str (d_transcription data))) with
                | None => inl (Error "No transcription result available")
                | Some transcriptionText =>
                    inr {| text := trim transcriptionText;
                           chunks := processedSegments (rawSegments data) |}
                end
            end
      end
  end.

(** Each chunk starts no earlier than the one before it ends. *)
Fixpoint nonOverlapping (cs : list TranscriptionChunk) : bool :=
  match cs with
  | [] => true
  | c :: rest =>
      match rest with
      | [] => true
      | c' :: _ => Qle_bool (chunk_end c) (chunk_start c') && nonOverlapping rest
      end
  end.

End Sarvam.

(* ================================================================= *)
(** ** [transcribeWithWhisper] of the server *)

Module Whisper.
Import Js.

(** The two answers of [fs.existsSync] the function asks for. *)
Record FsEnv := mkFsEnv {
  pythonExists : bool;
  audioExists : bool
}.

Record WhisperSegment := mkWhisperSegment {
  ws_text : string;
  ws_start : Q;
  ws_end : Q
}.

(** The JSON object printed by the Python script. *)
Record WhisperOutput := mkWhisperOutput {
  out_error : option string;
  out_text : string;
  out_segments : option (list WhisperSegment)
}.

Record WordEntry := mkWordEntry {
  word : string;
  word_start : Q;
  word_end : Q
}.

Record Transcription := mkTranscription {
  t_text : string;
  words : list WordEntry
}.

(** What the event loop can deliver while the call is in flight: the four
    events the function registered a handler for, and the passing of time,
    for which it registered none. *)
Inductive ProcessEvent :=
| StdoutData (chunk : string)
| StderrData (chunk : string)
| Close (exitCode : option Z)
| ProcessError (msg : string)
| TimeElapsed (ms : N).

(** What the function does to the outside world. *)
Inductive Effect :=
| Spawn
| Kill
| UnlinkAudio.

Inductive Promise :=
| Pending
| Resolved (r : Transcription)
| Rejected (e : JsError).

Record State := mkState {
  outputData : string;
  errorData : string;
  promise : Promise;
  effects : list Effect
}.

(** [resolve] and [reject] settle a promise once; later calls do nothing. *)
Definition settle (p : Promise) (st : State) : State :=
  match promise st with
  | Pending =>
      {| outputData := outputData st; errorData := errorData st;
         promise := p; effects := effects st |}
  | _ => st
  end.

Definition perform (e : Effect) (st : State) : State :=
  {| outputData := outputData st; errorData := errorData st;
     promise := promise st; effects := (effects st ++ [e])%list |}.

Definition toWord (segment : WhisperSegment) : WordEntry :=
  {| word := ws_text segment;
     word_start := ws_start segment;
     word_end := ws_end segment |}.

Section Handlers.

(** [JSON.parse]: the parsed object, or the text of the [SyntaxError]. *)
Variable JSON_parse : string -> string + WhisperOutput.

Definition parseFailure (err : string) : JsError :=
  Error ("Failed to parse Whisper output: " ++ err).

(** The handler of ['close']. *)
Definition onClose (exitCode : option Z) (st : State) : State :=
  match exitCode with
  | Some 0%Z =>
      match JSON_parse (outputData st) with
      | inl syntaxError => settle (Rejected (parseFailure syntaxError)) st
      | inr result =>
          match truthy_str (out_error result) with
          | Some err => settle (Rejected (Error ("Whisper error: " ++ err))) st
          | None =>
              let st' := perform UnlinkAudio st in
              match out_segments result with
              | Some segments =>
                  settle (Resolved {| t_text := out_text result;
                                      words := map toWord segments |}) st'
              | None =>
                  settle (Rejected (parseFailure
                    "TypeError: Cannot read properties of undefined (reading 'map')"))
                    st'
              end
          end
      end
  | _ =>
      settle (Rejected (Error ("Whisper process failed: " ++ errorData st))) st
  end.

(** One event delivered to the handlers. *)
Definition step (st : State) (ev : ProcessEvent) : State :=
  match ev with
  | StdoutData chunk =>
      {| outputData := outputData st ++ chunk; errorData := errorData st;
         promise := promise st; effects := effects st |}
  | StderrData chunk =>
      {| outputData := outputData st; errorData := errorData st ++ chunk;
         promise := promise st; effects := effects st |}
  | Close exitCode => onClose exitCode st
  | ProcessError msg =>
      settle (Rejected (Error ("Failed to start Whisper process: " ++ msg))) st
  | TimeElapsed _ => st
  end.

(** The executor of the promise, up to the registration of the
    handlers: it rejects at once, or spawns the child process. *)
Definition start (env : FsEnv) : State :=
  if negb (pythonExists env) then
    {| outputData := ""; errorData := "";
       promise := Rejected (Error
         "Whisper environment not properly configured. Please check installation.");
       effects := [] |}
  else if negb (audioExists env) then
    {| outputData := ""; errorData := "";
       promise := Rejected (Error "Audio file not found");
       effects := [] |}
  else
    {| outputData := ""; errorData := ""; promise := Pending;
       effects := [Spawn] |}.

Definition spawned (st : State) : bool :=
  match effects st with
  | Spawn :: _ => true
  | _ => false
  end.

(** The call, followed through the events the child process causes;
    without a child process there are none. *)
Definition transcribeWithWhisper (env : FsEnv) (events : list ProcessEvent)
  : State :=
  let st := start env in
  if spawned st then fold_left step events st else st.

End Handlers.

(** The milliseconds that pass during a run. *)
Definition elapsed (events : list ProcessEvent) : N :=
  fold_right (fun ev acc =>
                match ev with
                | TimeElapsed ms => (ms + acc)%N
                | _ => acc
                end) 0%N events.

(** An event that ends the child process. *)
Definition isTerminal (ev : ProcessEvent) : bool :=
  match ev with
  | Close _ | ProcessError _ => true
  | _ => false
  end.

Definition isKill (e : Effect) : bool :=
  match e with
  | Kill => true
  | _ => false
  end.

(** No event of the run ends the child process. *)
Definition stillRunning (events : list ProcessEvent) : bool :=
  forallb (fun ev => negb (isTerminal ev)) events.

End Whisper.

(** Sample files and backends for the concrete runs. *)
Module Samples.
Import Js Orchestrator.

Definition wav (size : N) : File :=
  {| file_type := "audio/wav"; file_size := size |}.

Definition apiAnswers (t : option string) : File -> JsError + option ApiData :=
  fun _ => inr (Some {| data_text := t; data_chunks := None |}).

Definition localAnswers (t : string) : File -> JsError + TranscriptionResult :=
  fun _ => inr {| text := t; chunks := [] |}.

Definition backends (t : option string) : Backends :=
  {| axios_post := apiAnswers t; transcribeLocally := localAnswers "local" |}.

(** Decoded audio for the concrete runs of the normalizer. *)
Definition halfThenFull32k : SignalNormalizer.AudioBuffer :=
  {| SignalNormalizer.sampleRate := 32000;
     SignalNormalizer.channelData0 := [1 # 2; 1]%Q |}.


Definition silence44k : SignalNormalizer.AudioBuffer :=
  {| SignalNormalizer.sampleRate := 44100;
     SignalNormalizer.channelData0 := [0; 0; 0]%Q |}.

(** An answer of the transcription service whose second segment starts
    before the first one ends. *)
Definition explicitSegment (t : string) (s e : Q) : Sarvam.RawSegment :=
  {| Sarvam.seg_text := Some t; Sarvam.seg_transcript := None;
     Sarvam.seg_start := Some s; Sarvam.seg_end := Some e;
     Sarvam.seg_timestamp := None |}.

Definition overlappingAnswer : Sarvam.Response :=
  {| Sarvam.ok := true; Sarvam.status := 200;
     Sarvam.json := inr
       {| Sarvam.d_text := Some "a b"; Sarvam.d_transcript := None;
          Sarvam.d_transcription := None;
          Sarvam.d_segments := Some [explicitSegment "a" 1 5;
                                     explicitSegment "b" 3 6]%Q;
          Sarvam.d_chunks := None |} |}.

(** A [JSON.parse] that rejects everything, for runs that never parse. *)
Definition rejectingParse : string -> string + Whisper.WhisperOutput :=
  fun _ => inl "SyntaxError: Unexpected token".

Definition readyEnv : Whisper.FsEnv :=
  {| Whisper.pythonExists := true; Whisper.audioExists := true |}.

(** An hour in which the child process prints one line and does not
    exit. *)
Definition hungRun : list Whisper.ProcessEvent :=
  [Whisper.StdoutData "Loading Whisper model...";
   Whisper.TimeElapsed 3600000].

End Samples.

(** More sample values for the concrete runs. *)
Module Fixtures.
Import Js Orchestrator.

(** Backends of which both fail: the POST times out in axios, the local
    model cannot be loaded. *)
Definition axiosTimeout : JsError :=
  {| message := "timeout of 30000ms exceeded"; isAxiosError := true;
     code := Some "ECONNABORTED"; response_data_message := None |}.

Definition failingBackends : Backends :=
  {| axios_post := fun _ => inl axiosTimeout;
     transcribeLocally := fun _ =>
       inl (Error "Local transcription failed: Unable to load speech recognition model. Please try again.") |}.

Definition offlineBackends : Backends :=
  {| axios_post := fun _ => inl axiosTimeout;
     transcribeLocally := Samples.localAnswers "local" |}.

End Fixtures.

(** What a run of the child process wrote to its two streams. *)
Module WhisperStreams.
Import Whisper.

Fixpoint stdoutOf (events : list ProcessEvent) : string :=
  match events with
  | [] => ""
  | StdoutData chunk :: rest => chunk ++ stdoutOf rest
  | _ :: rest => stdoutOf rest
  end.

Fixpoint stderrOf (events : list ProcessEvent) : string :=
  match events with
  | [] => ""
  | StderrData chunk :: rest => chunk ++ stderrOf rest
  | _ :: rest => stderrOf rest
  end.

(** The ['close'] event of a process that exited with code 0. *)
Definition exitedCleanly (ev : ProcessEvent) : bool :=
  match ev with
  | Close (Some 0%Z) => true
  | _ => false
  end.

Definition isUnlink (e : Effect) : bool :=
  match e with
  | UnlinkAudio => true
  | _ => false
  end.

(** A [JSON.parse] that knows one text. *)
Definition parseOnly (known : string) (result : WhisperOutput)
  : string -> string + WhisperOutput :=
  fun s => if String.eqb s known then inr result
           else inl "SyntaxError: Unexpected token".

Definition helloOutput : WhisperOutput :=
  {| out_error := None; out_text := " Hello there.";
     out_segments := Some [ {| ws_text := " Hello there.";
                               ws_start := 0; ws_end := 2 |} ] |}.

Definition truncatedOutput : WhisperOutput :=
  {| out_error := None; out_text := " Hello there."; out_segments := None |}.

(** The output arrives in two chunks, with a warning on stderr. *)
Definition helloRun : list ProcessEvent :=
  [StdoutData "{"; StderrData "FP16 is not supported on CPU";
   StdoutData "}"].

End WhisperStreams.

(** Checks on the answers of [transcribeWithSarvam]. *)
Module SarvamChecks.
Import Js Sarvam.

Local Open Scope Q_scope.

Definition startsWithWhiteSpace (s : string) : bool :=
  match s with
  | EmptyString => false
  | String c _ => is_white_space c
  end.

Fixpoint endsWithWhiteSpace (s : string) : bool :=
  match s with
  | EmptyString => false
  | String c EmptyString => is_white_space c
  | String _ rest => endsWithWhiteSpace rest
  end.

(** No white space at either end. *)
Definition isTrimmed (s : string) : bool :=
  negb (startsWithWhiteSpace s) && negb (endsWithWhiteSpace s).

(** The segment carries a non-zero [start] and a non-zero [end]. *)
Definition hasExplicitTimes (segment : RawSegment) : bool :=
  match truthy_num (seg_start segment), truthy_num (seg_end segment) with
  | Some _, Some _ => true
  | _, _ => false
  end.

(** The raw segments, read by their own [start] and [end], do not
    overlap. *)
Fixpoint rawNonOverlapping (segments : list RawSegment) : bool :=
  match segments with
  | [] => true
  | s :: rest =>
      match rest with
      | [] => true
      | s' :: _ =>
          match seg_end s, seg_start s' with
          | Some e, Some b => Qle_bool e b && rawNonOverlapping rest
          | _, _ => false
          end
      end
  end.

(** The first non-empty one of [text], [transcript], [transcription]. *)
Definition transcriptionText (data : SarvamData) : option string :=
  or_opt (truthy_str (d_text data))
         (or_opt (truthy_str (d_transcript data))
                 (truthy_str (d_transcription data))).



Definition orderedAnswer : Response :=
  {| ok := true; status := 200;
     json := inr
       {| d_text := None; d_transcript := Some " a b ";
          d_transcription := None;
          d_segments := None;
          d_chunks := Some [Samples.explicitSegment " a" 1 2;
                            Samples.explicitSegment "b " 2 3] |} |}.

End SarvamChecks.

(** Relating two converted buffers. *)
Module NormalizerChecks.
Import Js SignalNormalizer.

Local Open Scope Q_scope.

(** The same stored sample, up to the representation of the rational. *)
Definition sameSample (a b : jsnum) : Prop :=
  match a, b with
  | Fin p, Fin q => p == q
  | PosInfinity, PosInfinity => True
  | NegInfinity, NegInfinity => True
  | NaN, NaN => True
  | _, _ => False
  end.

(** The same recording at another volume. *)
Definition amplify (gain : Q) (buf : AudioBuffer) : AudioBuffer :=
  {| sampleRate := sampleRate buf;
     channelData0 := map (Qmult gain) (channelData0 buf) |}.

Definition ramp (rate : positive) : AudioBuffer :=
  {| sampleRate := rate; channelData0 := [1 # 4; 1 # 2; - (3 # 4); 1; 1 # 8] |}.

End NormalizerChecks.

(* ================================================================= *)
(** ** [generateInterviewQuestions] of [server/question-generator.ts]
       and the [numQuestions] of the [/api/generate-questions] route *)

Module QuestionGenerator.
Import Js.

Record Question := mkQuestion {
  question : string;
  purpose : string;
  follow_ups : list string
}.

(** A question as it comes out of the model's JSON: each property may be
    missing ([follow_ups] is [None] when it is not an array). *)
Record RawQuestion := mkRawQuestion {
  raw_question : option string;
  raw_purpose : option string;
  raw_follow_ups : option (list string)
}.

(** The parsed answer: [interview_questions] may be missing, and its
    [opening_questions] may not be an array. *)
Record ParsedResponse := mkParsedResponse {
  interview_questions : option (option (list RawQuestion))
}.

Definition defaultQuestions (topic role : string) : list Question :=
  [ {| question := "Tell me about your experience with " ++ topic ++ ".";
       purpose := "To understand the candidate's background and experience with the topic.";
       follow_ups := ["Can you describe a specific challenge you faced?";
                      "What skills did you develop?"] |};
    {| question := "What do you consider the most important aspect of " ++ topic
                   ++ " for a " ++ role ++ "?";
       purpose := "To assess the candidate's knowledge and priorities.";
       follow_ups := ["Why do you think that's important?";
                      "How have you applied this in your work?"] |};
    {| question := "How do you stay updated with the latest developments in "
                   ++ topic ++ "?";
       purpose := "To evaluate the candidate's commitment to continuous learning.";
       follow_ups := ["What resources do you use?";
                      "What recent development interested you most?"] |};
    {| question := "Describe a situation where you had to solve a complex problem related to "
                   ++ topic ++ ".";
       purpose := "To understand problem-solving skills and application of knowledge.";
       follow_ups := ["What approach did you take?"; "What was the outcome?"] |};
    {| question := "Where do you see the future of " ++ topic
                   ++ " heading in the next few years?";
       purpose := "To assess forward-thinking and awareness of industry trends.";
       follow_ups := ["How are you preparing for these changes?";
                      "What opportunities do you see?"] |} ].

(** [defaultQuestions[i % defaultQuestions.length]] *)
Definition defaultAt (topic role : string) (i : nat) : Question :=
  nth (i mod 5) (defaultQuestions topic role)
      {| question := ""; purpose := ""; follow_ups := [] |}.

(** The loop [for (let i = 0; i < numQuestions; i++)]. *)
Definition createDefaultQuestions (topic role : string) (numQuestions : Z)
  : list Question :=
  map (defaultAt topic role) (seq 0 (Z.to_nat numQuestions)).

(** The first check of [generateInterviewQuestions], on an integer
    [numQuestions]. *)
Definition validNumQuestions (numQuestions : Z) : Z :=
  if (Z.eqb numQuestions 0 || Z.ltb numQuestions 1 || Z.ltb 10 numQuestions)%bool
  then 3%Z else numQuestions.

Definition isOpenBrace (c : ascii) : bool := Ascii.eqb c "{"%char.
Definition isCloseBrace (c : ascii) : bool := Ascii.eqb c "}"%char.

(** The suffix that starts at the first opening brace. *)
Fixpoint fromFirstBrace (s : string) : option string :=
  match s with
  | EmptyString => None
  | String c rest => if isOpenBrace c then Some s else fromFirstBrace rest
  end.

(** The prefix that ends at the last closing brace. *)
Fixpoint throughLastBrace (s : string) : option string :=
  match s with
  | EmptyString => None
  | String c rest =>
      match throughLastBrace rest with
      | Some kept => Some (String c kept)
      | None => if isCloseBrace c then Some (String c EmptyString) else None
      end
  end.

(** [responseText.match(/\{[\s\S]*\}/)], then the match or the whole
    text. *)
Definition jsonString (responseText : string) : string :=
  match fromFirstBrace responseText with
  | Some suffix =>
      match throughLastBrace suffix with
      | Some matched => matched
      | None => responseText
      end
  | None => responseText
  end.

Definition asRaw (q : Question) : RawQuestion :=
  {| raw_question := Some (question q); raw_purpose := Some (purpose q);
     raw_follow_ups := Some (follow_ups q) |}.

(** The callback of the last [map]: missing fields are filled in. *)
Definition complete (topic : string) (q : RawQuestion) : Question :=
  {| question := or_else (truthy_str (raw_question q))
                         ("Tell me about your experience with " ++ topic ++ ".");
     purpose := or_else (truthy_str (raw_purpose q))
                        "To understand the candidate's knowledge and experience.";
     follow_ups := or_else (raw_follow_ups q)
                           ["Can you elaborate on that?";
                            "What specific skills did you use?"] |}.

(** The questions taken from a usable answer. *)
Definition finalQuestions (topic role : string) (numQuestions : Z)
    (generatedQuestions : list RawQuestion) : list Question :=
  map (complete topic)
    (if (numQuestions <=? Z.of_nat (length generatedQuestions))%Z
     then firstn (Z.to_nat numQuestions) generatedQuestions
     else (generatedQuestions
           ++ map asRaw (createDefaultQuestions topic role
                           (numQuestions - Z.of_nat (length generatedQuestions))))%list).

Section Generator.

(** The API key of the environment, what [generateSafely] gives back
    (the text of the response, [None] when the generation threw or
    has no response), and [JSON.parse] ([None] when it throws). *)
Variable GEMINI_API_KEY : option string.
Variable generated : option string.
Variable JSON_parse : string -> option ParsedResponse.

(** The [opening_questions] of the object the function returns. *)
Definition generateInterviewQuestions (topic role mode : string)
    (numQuestions : Z) : list Question :=
  let numQuestions := validNumQuestions numQuestions in
  match truthy_str GEMINI_API_KEY with
  | None => createDefaultQuestions topic role numQuestions
  | Some _ =>
      match generated with
      | None => createDefaultQuestions topic role numQuestions
      | Some responseText =>
          match JSON_parse (jsonString responseText) with
          | None => createDefaultQuestions topic role numQuestions
          | Some parsedResponse =>
              match interview_questions parsedResponse with
              | Some (Some (q :: qs)) =>
                  finalQuestions topic role numQuestions (q :: qs)
              | _ => createDefaultQuestions topic role numQuestions
              end
          end
      end
  end.

End Generator.

(** [req.body.numQuestions]: missing, a string, or an integer number
    below [10^21] in absolute value, which [String] renders by its
    decimal digits (larger numbers are rendered with an exponent, and
    fractions with a point; they are outside the model). *)
Inductive BodyField :=
| Missing
| Text (s : string)
| Number (z : Z) (small : (Z.abs z <? 10 ^ 21)%Z = true).

Definition digitValue (c : ascii) : option Z :=
  let n := nat_of_ascii c in
  if (Nat.leb 48 n && Nat.leb n 57)%bool then Some (Z.of_nat (n - 48)) else None.

(** The value of the leading decimal digits; [None] when there is none. *)
Fixpoint parseDigits (s : string) (acc : option Z) : option Z :=
  match s with
  | EmptyString => acc
  | String c rest =>
      match digitValue c with
      | Some d => parseDigits rest (Some (10 * or_else acc 0 + d)%Z)
      | None => acc
      end
  end.

(** [parseInt(s, 10)]; [None] is [NaN]. *)
Definition parseInt (s : string) : option Z :=
  match trimStart s with
  | String "-"%char rest => option_map Z.opp (parseDigits rest None)
  | String "+"%char rest => parseDigits rest None
  | t => parseDigits t None
  end.

(** [parseInt(req.body.numQuestions || '3', 10)]; an integer number is
    parsed from its decimal digits. *)
Definition parsedNumQuestions (field : BodyField) : option Z :=
  match field with
  | Missing => parseInt "3"
  | Text s => match truthy_str (Some s) with
              | Some t => parseInt t
              | None => parseInt "3"
              end
  | Number z _ => if Z.eqb z 0 then parseInt "3" else Some z
  end.

(** The [numQuestions] of the route after its validation. *)
Definition requestedQuestions (field : BodyField) : Z :=
  match parsedNumQuestions field with
  | None => 3%Z
  | Some n => if (n <? 1)%Z then 3%Z
              else if (10 <? n)%Z then 10%Z else n
  end.

End QuestionGenerator.

Module QuestionChecks.
Import QuestionGenerator.

(** No character of the string satisfies [p]. *)
Fixpoint lacks (p : ascii -> bool) (s : string) : bool :=
  match s with
  | EmptyString => true
  | String c rest => negb (p c) && lacks p rest
  end.

(** Both texts of the question are non-empty. *)
Definition isFilledIn (q : Question) : bool :=
  negb (String.eqb (question q) "") && negb (String.eqb (purpose q) "").

(** An answer of the model with one question, which lacks a purpose. *)
Definition oneQuestion : ParsedResponse :=
  {| interview_questions :=
       Some (Some [ {| raw_question := Some "What is a monad?";
                       raw_purpose := None; raw_follow_ups := None |} ]) |}.

Definition parseAny (p : ParsedResponse) : string -> option ParsedResponse :=
  fun _ => Some p.

End QuestionChecks.

(* ================================================================= *)
(** ** [WhisperService.loadModel] and [WhisperService.transcribeLocally] *)

Module LocalModel.
Import Js.

(** What the browser and the model library are asked to do. *)
Inductive Effect :=
| CreatePipeline (model : string)
| CreateObjectURL
| RunModel (model : string)
| RevokeObjectURL.

(** The two fields of the service: the memoized pipeline, named by the
    model it was created for, and the re-entrancy flag. *)
Record Service := mkService {
  transcriber : option string;
  loading : bool
}.

Inductive LoadOutcome :=
| Loaded (model : string)
| LoadFailed (e : JsError)
| StillWaiting.

Definition baseModel : string := "Xenova/whisper-base.en".
Definition tinyModel : string := "Xenova/whisper-tiny.en".

Definition loadError : JsError :=
  Error "Unable to load speech recognition model. Please try again.".

(** [loadModel].  [pipelineOutcome] is what creating the base pipeline
    does: it succeeds or throws.  While another load is in flight the
    function sleeps a second and starts over; [polls] are the states of
    the service it finds at its successive wake-ups, left there by the
    other callers. *)
Fixpoint loadModel (pipelineOutcome : JsError + unit) (polls : list Service)
    (this : Service) : LoadOutcome * Service * list Effect :=
  match transcriber this with
  | Some model => (Loaded model, this, [])
  | None =>
      if loading this then
        match polls with
        | [] => (StillWaiting, this, [])
        | next :: later => loadModel pipelineOutcome later next
        end
      else
        match pipelineOutcome with
        | inr _ =>
            (Loaded baseModel,
             {| transcriber := Some baseModel; loading := false |},
             [CreatePipeline baseModel])
        | inl _ =>
            (LoadFailed loadError,
             {| transcriber := None; loading := false |},
             [CreatePipeline baseModel])
        end
  end.

(** A chunk of the pipeline's result, with its [timestamp] pair. *)
Record ModelChunk := mkModelChunk {
  mc_text : string;
  mc_timestamp : Q * Q
}.

Record ModelResult := mkModelResult {
  mr_text : string;
  mr_chunks : option (list ModelChunk)
}.

(** What a failing call of the browser or of the model library throws
    or rejects with: an [Error], or a value that is not one. *)
Inductive Throwable :=
| AnError (e : JsError)
| NotAnError.

(** Everything outside the service that [transcribeLocally] depends on. *)
Record Browser := mkBrowser {
  pipelineOutcome : JsError + unit;        (* creating the base pipeline *)
  polls : list Service;                    (* see [loadModel] *)
  canPlayThrough : bool;                   (* does the event ever fire *)
  inference : Throwable + ModelResult;     (* [model(audioURL, ...)] *)
  importEnv : Throwable + unit;            (* the dynamic import and its settings *)
  tinyPipeline : Throwable + unit;         (* creating the second pipeline *)
  tinyInference : Throwable + string       (* [newPipeline(audioURL)], its text *)
}.

Inductive Outcome :=
| Returned (r : TranscriptionResult)
| Thrown (e : JsError)
| NeverSettles.

(** [error instanceof Error ? error.message : 'Unknown error'] *)
Definition reason (thrown : Throwable) : string :=
  match thrown with
  | AnError e => message e
  | NotAnError => "Unknown error"
  end.

(** The handler of the outer [catch]. *)
Definition wrap (thrown : Throwable) : JsError :=
  Error ("Local transcription failed: " ++ reason thrown).

Definition toChunk (chunk : ModelChunk) : TranscriptionChunk :=
  {| chunk_text := mc_text chunk;
     chunk_start := fst (mc_timestamp chunk);
     chunk_end := snd (mc_timestamp chunk) |}.

(** The handler of the inner [catch]: the alternative approach. *)
Definition alternative (B : Browser) : Outcome * list Effect :=
  match importEnv B with
  | inl e => (Thrown (wrap e), [])
  | inr _ =>
      match tinyPipeline B with
      | inl e => (Thrown (wrap e), [CreatePipeline tinyModel])
      | inr _ =>
          match tinyInference B with
          | inl e => (Thrown (wrap e), [CreatePipeline tinyModel; RunModel tinyModel])
          | inr t =>
              (Returned {| text := t; chunks := [] |},
               [CreatePipeline tinyModel; RunModel tinyModel; RevokeObjectURL])
          end
      end
  end.

Definition transcribeLocally (B : Browser) (this : Service)
  : Outcome * Service * list Effect :=
  match loadModel (pipelineOutcome B) (polls B) this with
  | (StillWaiting, this', effs) => (NeverSettles, this', effs)
  | (LoadFailed e, this', effs) => (Thrown (wrap (AnError e)), this', effs)
  | (Loaded model, this', effs) =>
      if negb (canPlayThrough B) then
        (NeverSettles, this', (effs ++ [CreateObjectURL])%list)
      else
        match inference B with
        | inr result =>
            (Returned {| text := mr_text result;
                         chunks := map toChunk (or_else (mr_chunks result) []) |},
             this',
             (effs ++ [CreateObjectURL; RunModel model; RevokeObjectURL])%list)
        | inl _ =>
            let (outcome, more) := alternative B in
            (outcome, this',
             (effs ++ [CreateObjectURL; RunModel model] ++ more)%list)
        end
  end.

(** The backend as [transcribeAudio] sees it, for a call that settles. *)
Definition asBackend (B : Browser) (this : Service)
  : option (JsError + TranscriptionResult) :=
  match fst (fst (transcribeLocally B this)) with
  | Returned r => Some (inr r)
  | Thrown e => Some (inl e)
  | NeverSettles => None
  end.

Definition isRevoke (e : Effect) : bool :=
  match e with
  | RevokeObjectURL => true
  | _ => false
  end.

Definition isCreatePipeline (e : Effect) : bool :=
  match e with
  | CreatePipeline _ => true
  | _ => false
  end.

Definition fresh : Service := {| transcriber := None; loading := false |}.
Definition busy : Service := {| transcriber := None; loading := true |}.

Definition offline : Browser :=
  {| pipelineOutcome := inl (Error "Failed to fetch");
     polls := [];
     canPlayThrough := true;
     inference := inl (AnError (Error "unused"));
     importEnv := inr tt;
     tinyPipeline := inl (AnError (Error "Failed to fetch"));
     tinyInference := inl (AnError (Error "unused")) |}.

Definition flaky : Browser :=
  {| pipelineOutcome := inr tt;
     polls := [];
     canPlayThrough := true;
     inference := inl (AnError (Error "Out of memory"));
     importEnv := inr tt;
     tinyPipeline := inr tt;
     tinyInference := inr "hello" |}.

(** The base model is loaded, fails on the audio, and the second
    pipeline cannot be created. *)
Definition stuck : Browser :=
  {| pipelineOutcome := inr tt;
     polls := [];
     canPlayThrough := true;
     inference := inl (AnError (Error "Out of memory"));
     importEnv := inr tt;
     tinyPipeline := inl NotAnError;
     tinyInference := inr "unused" |}.

Definition loaded : Service :=
  {| transcriber := Some baseModel; loading := false |}.

End LocalModel.

(* ================================================================= *)
(** ** The [/api/transcribe] route of the server *)

Module TranscribeRoute.
Import Js Whisper.

(** JavaScript objects with named properties. *)
Inductive Value :=
| VString (s : string)
| VNumber (q : Q).

Definition Object := list (string * Value).

(** Reading a property: [None] is [undefined]. *)
Fixpoint get (o : Object) (key : string) : option Value :=
  match o with
  | [] => None
  | (k, v) :: rest => if String.eqb k key then Some v else get rest key
  end.

(** A word entry as [transcribeWithWhisper] builds it:
    [{ word, start, end }]. *)
Definition wordObject (w : WordEntry) : Object :=
  [("word", VString (word w)); ("start", VNumber (word_start w));
   ("end", VNumber (word_end w))].

(** [JSON.stringify] leaves out the properties that are [undefined]. *)
Fixpoint defined (props : list (string * option Value)) : Object :=
  match props with
  | [] => []
  | (k, Some v) :: rest => (k, v) :: defined rest
  | (_, None) :: rest => defined rest
  end.

(** The callback of [result.words.map] in the route, as it is sent. *)
Definition chunkOf (word : Object) : Object :=
  defined [("text", get word "text"); ("start", get word "start");
           ("end", get word "end")].

Inductive Body :=
| TranscriptBody (text : string) (chunks : list Object)
| MessageBody (message : string).

Record Reply := mkReply {
  status : N;
  body : Body
}.

(** What the route has sent when it calls [res.end()] (or [res.json]),
    given [req.file] and the outcome of [transcribeWithWhisper]; [None]
    when the call is still pending and nothing is sent. *)
Definition transcribeRoute (file : option string) (outcome : Promise)
  : option Reply :=
  match file with
  | None => Some {| status := 400; body := MessageBody "No audio file provided" |}
  | Some _ =>
      match outcome with
      | Resolved result =>
          Some {| status := 200;
                  body := TranscriptBody (t_text result)
                            (map (fun w => chunkOf (wordObject w)) (words result)) |}
      | Rejected _ =>
          Some {| status := 200;
                  body := MessageBody "Failed to transcribe audio. Please try again." |}
      | Pending => None
      end
  end.

Definition chunksOf (b : Body) : list Object :=
  match b with
  | TranscriptBody _ chunks => chunks
  | MessageBody _ => []
  end.

End TranscribeRoute.

(* ================================================================= *)
(** ** [AudioAnalysisService.analyzeTranscription] *)

Module AnalysisClient.
Import Js.

(** The JSON object the server answers, as far as the function reads and
    writes it; [others] are the properties it leaves alone. *)
Record AnalysisResult := mkAnalysisResult {
  transcription : option string;
  full_transcript : option string;
  others : list (string * string)
}.

Record Response := mkResponse {
  ok : bool;
  status : N;
  statusText : string;
  json : JsError + AnalysisResult
}.

Definition noTextError : JsError := Error "No transcription text provided".

Definition statusError (r : Response) : JsError :=
  Error ("Error analyzing transcription: "
         ++ DecimalString.NilZero.string_of_uint (N.to_uint (status r))
         ++ " " ++ statusText r).

(** The [if (result.full_transcript)] block. *)
Definition promote (result : AnalysisResult) : AnalysisResult :=
  match truthy_str (full_transcript result) with
  | Some full =>
      {| transcription := Some full; full_transcript := None;
         others := others result |}
  | None => result
  end.

(** The function, given what [fetch] does with the text it is sent.
    The second component lists the texts posted to [/analyze-text]. *)
Definition analyzeTranscription (fetch : string -> JsError + Response)
    (text : string) : (JsError + AnalysisResult) * list string :=
  if (String.eqb text "" || String.eqb (trim text) "")%bool
  then (inl noTextError, [])
  else
    (match fetch text with
     | inl error => inl error
     | inr response =>
         if negb (ok response) then inl (statusError response)
         else
           match json response with
           | inl error => inl error
           | inr result => inr (promote result)
           end
     end, [text]).

(** Every character of the text is below 128. *)
Fixpoint isAscii (s : string) : bool :=
  match s with
  | EmptyString => true
  | String c rest => Nat.ltb (nat_of_ascii c) 128 && isAscii rest
  end.

Definition answering (r : AnalysisResult) : string -> JsError + Response :=
  fun _ => inr {| ok := true; status := 200; statusText := "OK"; json := inr r |}.

End AnalysisClient.

(* ================================================================= *)
(** ** Binary64 arithmetic, and the length of the resampled buffer in it *)

(** Rounding to the nearest binary64 number, ties to even, for values in
    the normal range (no overflow, no subnormal result): a rational is
    scaled by a power of two until its integer part has 53 bits, rounded to
    an integer, and scaled back. *)
Module Binary64.

Local Open Scope Q_scope.

Definition pow2 (e : Z) : Q := Qpower 2 e.

(** [floor(log2 q)] for a positive [q]. *)
Definition ilog2 (q : Q) : Z :=
  let p := (Z.log2 (Qnum q) - Z.log2 (Z.pos (Qden q)))%Z in
  if Qle_bool (pow2 p) q then p else (p - 1)%Z.

(** The nearest integer, the even one of two equally near. *)
Definition roundEven (x : Q) : Z :=
  let f := Qfloor x in
  match Qcompare (x - inject_Z f) (1 # 2) with
  | Lt => f
  | Gt => (f + 1)%Z
  | Eq => if Z.even f then f else (f + 1)%Z
  end.

Definition roundPos (q : Q) : Q :=
  let e := (ilog2 q - 52)%Z in
  Qred (inject_Z (roundEven (q / pow2 e)) * pow2 e).

Definition round (q : Q) : Q :=
  match Qnum q with
  | Z0 => 0
  | Zpos _ => roundPos q
  | Zneg _ => - roundPos (- q)
  end.

(** [a * b] and [a / b] on binary64 numbers. *)
Definition mul (a b : Q) : Q := round (a * b).
Definition div (a b : Q) : Q := round (a / b).


(** The value of a finite primitive float, to compare the rounding above
    with the arithmetic of the machine. *)
Definition valueOf (f : PrimFloat.float) : option Q :=
  match FloatOps.Prim2SF f with
  | SpecFloat.S754_zero _ => Some 0
  | SpecFloat.S754_finite s m e =>
      Some (Qred ((if s then - (1) else 1) * inject_Z (Z.pos m) * pow2 e))
  | _ => None
  end.

(** Does the machine compute [n * (16000 / rate)] as [mul] and [div] do? *)
Definition agreesAt (n rate : Z) : bool :=
  let float_of z := PrimFloat.of_uint63 (Uint63.of_Z z) in
  match valueOf (PrimFloat.mul (float_of n)
                   (PrimFloat.div (float_of 16000%Z) (float_of rate))) with
  | Some q => Qeq_bool q (mul (inject_Z n) (div 16000 (inject_Z rate)))
  | None => false
  end.

Definition sampleRates : list Z :=
  [7; 8000; 11025; 12000; 22050; 24000; 32000; 44056; 44100; 46400; 48000;
   88200; 96000; 98000; 176400; 192000; 384000; 768000; 4294967296]%Z.

Definition sampleLengths : list Z :=
  [1; 2; 3; 7; 49; 441; 5507; 65535; 1000003; 44100000; 123456789;
   4294967295; 4294967296]%Z.

End Binary64.

Module Resampler64.
Import SignalNormalizer.

Local Open Scope Q_scope.

(** [16000 / audioBuffer.sampleRate], as JavaScript computes it. *)
Definition resampleRatio (rate : positive) : Q :=
  Binary64.div (inject_Z (Z.pos targetRate)) (inject_Z (Z.pos rate)).

(** [Math.floor(normalizedData.length * resampleRatio)], as JavaScript
    computes it. *)
Definition resampledLength (len : nat) (rate : positive) : Z :=
  Qfloor (Binary64.mul (inject_Z (Z.of_nat len)) (resampleRatio rate)).

(** The length of the buffer [convertToFloat32Array] returns:
    [new Float32Array(resampledLength)] when the rate differs from the
    target, [normalizedData], as long as [rawData], otherwise. *)
Definition bufferLength (audioBuffer : AudioBuffer) : nat :=
  if negb (Pos.eqb (sampleRate audioBuffer) targetRate)
  then Z.to_nat (resampledLength (length (channelData0 audioBuffer))
                                 (sampleRate audioBuffer))
  else length (channelData0 audioBuffer).

(** Silence of a given length at a given rate. *)
Definition silent (len : nat) (rate : positive) : AudioBuffer :=
  {| sampleRate := rate; channelData0 := repeat 0 len |}.

End Resampler64.

(* ================================================================= *)
(** * Concrete runs of the embedding *)

Section ConcreteRuns.
Import Js Samples.

Example trim_both_ends : trim "  a b  " = "a b".
Proof. reflexivity. Qed.

Example split_counts_spaces : split_space_length "a b c" = 3%nat.
Proof. reflexivity. Qed.

Example split_of_empty : split_space_length "" = 1%nat.
Proof. reflexivity. Qed.

(** A failing POST is caught and the local backend answers. *)
Example api_failure_falls_back :
  Orchestrator.run
    {| Orchestrator.axios_post := fun _ => inl (Error "Network Error");
       Orchestrator.transcribeLocally := localAnswers "local" |}
    (wav 1000)
  = (inr {| text := "local"; chunks := [] |},
     [Orchestrator.ApiPost (wav 1000);
      Orchestrator.LocalTranscription (wav 1000)]).
Proof. reflexivity. Qed.

(** At the target rate the samples are only divided by the peak. *)
Example normalize_at_target_rate :
  SignalNormalizer.convertToFloat32Array
    (inr {| SignalNormalizer.sampleRate := 16000;
            SignalNormalizer.channelData0 := [1 # 4; - (1 # 2)]%Q |})
  = inr [Fin ((1 # 4) / (1 # 2)); Fin (- (1 # 2) / (1 # 2))].
Proof. reflexivity. Qed.

(** A segment with a word-level [timestamp] pair and no [end]: the end
    comes from the pair; with neither, from the word count. *)
Example segment_from_timestamp :
  Sarvam.processSegment
    {| Sarvam.seg_text := Some " hello there "; Sarvam.seg_transcript := None;
       Sarvam.seg_start := None; Sarvam.seg_end := None;
       Sarvam.seg_timestamp := Some [2; 4]%Q |}
  = mkChunk "hello there" 2 4.
Proof. reflexivity. Qed.

Example segment_end_is_estimated :
  Qeq_bool
    (chunk_end (Sarvam.processSegment
       {| Sarvam.seg_text := Some "hello there"; Sarvam.seg_transcript := None;
          Sarvam.seg_start := Some 2%Q; Sarvam.seg_end := None;
          Sarvam.seg_timestamp := None |}))
    (26 # 10) = true.
Proof. reflexivity. Qed.

(** A child process that exits with a non-zero code: the call is
    rejected with what it wrote to stderr. *)
Example whisper_reports_stderr :
  Whisper.promise
    (Whisper.transcribeWithWhisper rejectingParse readyEnv
       [Whisper.StderrData "boom"; Whisper.Close (Some 1%Z)])
  = Whisper.Rejected (Error "Whisper process failed: boom").
Proof. reflexivity. Qed.

End ConcreteRuns.

(* ================================================================= *)
(** * Properties of [transcribeAudio] *)

Section OrchestratorFacts.
Import Js Orchestrator.

Variable B : Backends.

Lemma run_rejects_format (f : File) :
  isSupported f = false -> run B f = (inl unsupportedFormatError, []).
Proof.
  intros Hs. unfold run, transcribeAudio, try_catch. now rewrite Hs.
Qed.

Lemma run_rejects_size (f : File) :
  isSupported f = true -> (maxSize < file_size f)%N ->
  run B f = (inl fileTooLargeError, []).
Proof.
  intros Hs Hlt. apply N.ltb_lt in Hlt.
  unfold run, transcribeAudio, try_catch. now rewrite Hs, Hlt.
Qed.

(** A validated file: the POST is made, and then either its text is
    returned or the local backend decides. *)
Lemma run_accepted (f : File) :
  isSupported f = true -> (file_size f <= maxSize)%N ->
  run B f =
    match axios_post B f with
    | inr (Some d) =>
        match truthy_str (data_text d) with
        | Some t => (inr {| text := t; chunks := or_else (data_chunks d) [] |},
                     [ApiPost f])
        | None => (localOutcome B f, [ApiPost f; LocalTranscription f])
        end
    | _ => (localOutcome B f, [ApiPost f; LocalTranscription f])
    end.
Proof.
  intros Hs Hle.
  assert (Hlt : (maxSize <? file_size f)%N = false) by (apply N.ltb_ge; exact Hle).
  unfold run, transcribeAudio, tryApi, try_catch, bind, call, ret, throw, localOutcome.
  rewrite Hs, Hlt. cbn.
  destruct (axios_post B f) as [e | [d |]]; cbn.
  - destruct (transcribeLocally B f); reflexivity.
  - destruct (truthy_str (data_text d)); cbn.
    + reflexivity.
    + destruct (transcribeLocally B f); reflexivity.
  - destruct (transcribeLocally B f); reflexivity.
Qed.

Lemma localOutcome_not_size_error (f : File) :
  localOutcome B f <> inl fileTooLargeError.
Proof.
  unfold localOutcome. destruct (transcribeLocally B f); discriminate.
Qed.

End OrchestratorFacts.

Section OrchestratorClaims.
Import Js Orchestrator Samples.

(** C2.  When a validated file is posted and the API answers with a
    non-empty [text], [transcribeAudio] returns that text with the
    answer's [chunks] (the empty list when the answer has none), and the
    only backend call of the run is the POST: [transcribeLocally] is not
    called. *)
Theorem api_text_short_circuits (B : Backends) (f : File) (d : ApiData) (s : string) :
  isSupported f = true ->
  (file_size f <= maxSize)%N ->
  axios_post B f = inr (Some d) ->
  data_text d = Some s ->
  s <> "" ->
  run B f =
    (inr {| text := s;
            chunks := match data_chunks d with Some cs => cs | None => [] end |},
     [ApiPost f])
  /\ ~ In (LocalTranscription f) (snd (run B f)).
Proof.
  intros Hs Hle Hpost Htext Hne.
  assert (Hrun : run B f =
    (inr {| text := s;
            chunks := match data_chunks d with Some cs => cs | None => [] end |},
     [ApiPost f])).
  { rewrite (run_accepted B f Hs Hle), Hpost, Htext.
    destruct s as [| c s']; [congruence | reflexivity]. }
  split; [exact Hrun |].
  rewrite Hrun. cbn. intros [H | []]. discriminate H.
Qed.

Lemma api_text_short_circuits_witness :
  run (backends (Some "hi")) (wav 1000)
  = (inr {| text := "hi"; chunks := [] |}, [ApiPost (wav 1000)])
  /\ ~ In (LocalTranscription (wav 1000)) (snd (run (backends (Some "hi")) (wav 1000))).
Proof.
  apply (api_text_short_circuits (backends (Some "hi")) (wav 1000)
           {| data_text := Some "hi"; data_chunks := None |} "hi").
  - reflexivity.
  - vm_compute. discriminate.
  - reflexivity.
  - reflexivity.
  - discriminate.
Defined.

(** C1, as the code has it.  When a validated file is posted and the API
    answers with an empty [text] (the empty string, or no [text] at all),
    the run goes on to [transcribeLocally] and answers what that backend
    answers; nothing of the API's answer is returned. *)
Theorem empty_api_text_falls_back (B : Backends) (f : File) (d : ApiData) :
  isSupported f = true ->
  (file_size f <= maxSize)%N ->
  axios_post B f = inr (Some d) ->
  data_text d = Some "" \/ data_text d = None ->
  run B f = (localOutcome B f, [ApiPost f; LocalTranscription f]).
Proof.
  intros Hs Hle Hpost Htext.
  rewrite (run_accepted B f Hs Hle), Hpost.
  destruct Htext as [-> | ->]; reflexivity.
Qed.

Lemma empty_api_text_falls_back_witness :
  run (backends (Some "")) (wav 1000)
  = (inr {| text := "local"; chunks := [] |},
     [ApiPost (wav 1000); LocalTranscription (wav 1000)]).
Proof.
  apply (empty_api_text_falls_back (backends (Some "")) (wav 1000)
           {| data_text := Some ""; data_chunks := None |}).
  - reflexivity.
  - vm_compute. discriminate.
  - reflexivity.
  - left. reflexivity.
Defined.

(** C1, as the claim states it, fails: a [text] of one space is
    white space only, yet it is truthy, so the API's answer is returned
    and the local backend is never called. *)
Lemma whitespace_api_text_is_returned :
  trim " " = ""
  /\ run (backends (Some " ")) (wav 1000)
     = (inr {| text := " "; chunks := [] |}, [ApiPost (wav 1000)]).
Proof. split; reflexivity. Qed.

(** C7.  A file larger than 25 MB makes [transcribeAudio] throw before
    any backend is called: the log of backend calls is empty. *)
Theorem oversize_rejected_before_backends (B : Backends) (f : File) :
  (maxSize < file_size f)%N ->
  exists e, run B f = (inl e, []).
Proof.
  intros Hlt. destruct (isSupported f) eqn:Hs.
  - exists fileTooLargeError. now apply run_rejects_size.
  - exists unsupportedFormatError. now apply run_rejects_format.
Qed.

Lemma oversize_rejected_before_backends_witness :
  exists e, run (backends (Some "hi")) (wav 26214401) = (inl e, []).
Proof.
  apply (oversize_rejected_before_backends (backends (Some "hi")) (wav 26214401)).
  vm_compute. reflexivity.
Defined.

(** C8, as the code has it.  [transcribeAudio] throws, with no backend
    called, for every file whose MIME type does not start with one of
    [audio/wav], [audio/mp3], [audio/mpeg]. *)
Theorem unsupported_prefix_rejected (B : Backends) (f : File) :
  (forall format, In format supportedFormats ->
                  String.prefix format (file_type f) = false) ->
  run B f = (inl unsupportedFormatError, []).
Proof.
  intros Hno. apply run_rejects_format.
  unfold isSupported.
  destruct (existsb _ supportedFormats) eqn:He; [| reflexivity].
  apply existsb_exists in He. destruct He as [format [Hin Hp]].
  rewrite (Hno format Hin) in Hp. discriminate.
Qed.

Lemma unsupported_prefix_rejected_witness :
  run (backends (Some "hi")) {| file_type := "video/mp4"; file_size := 1000 |}
  = (inl unsupportedFormatError, []).
Proof.
  apply (unsupported_prefix_rejected (backends (Some "hi"))
           {| file_type := "video/mp4"; file_size := 1000 |}).
  intros format Hin. cbn in Hin.
  destruct Hin as [<- | [<- | [<- | []]]]; reflexivity.
Defined.

(** C8, as the claim states it, fails: [audio/wave] is none of the three
    types, but it starts with [audio/wav], so the file reaches the API
    backend and the call succeeds. *)
Lemma longer_mime_type_is_accepted :
  ~ In "audio/wave" supportedFormats
  /\ run (backends (Some "hi")) {| file_type := "audio/wave"; file_size := 1000 |}
     = (inr {| text := "hi"; chunks := [] |},
        [ApiPost {| file_type := "audio/wave"; file_size := 1000 |}]).
Proof.
  split; [| reflexivity].
  cbn. intros [H | [H | [H | []]]]; discriminate H.
Qed.

(** C10.  For a file of a supported type: at exactly [25 * 1024 * 1024]
    bytes the size check passes, the POST is made and the answer is not
    the size error; and whenever the answer is the size error, the size
    is strictly above the limit. *)
Theorem size_limit_is_strict (B : Backends) (f : File) :
  isSupported f = true ->
  (file_size f = maxSize ->
     exists r tr, run B f = (r, ApiPost f :: tr) /\ r <> inl fileTooLargeError)
  /\ (fst (run B f) = inl fileTooLargeError -> (maxSize < file_size f)%N).
Proof.
  intros Hs.
  assert (Hacc : (file_size f <= maxSize)%N ->
                 exists r tr, run B f = (r, ApiPost f :: tr)
                              /\ r <> inl fileTooLargeError).
  { intros Hle. rewrite (run_accepted B f Hs Hle).
    destruct (axios_post B f) as [e | [d |]].
    - eexists _, _. split; [reflexivity | apply localOutcome_not_size_error].
    - destruct (truthy_str (data_text d)).
      + eexists _, _. split; [reflexivity | discriminate].
      + eexists _, _. split; [reflexivity | apply localOutcome_not_size_error].
    - eexists _, _. split; [reflexivity | apply localOutcome_not_size_error]. }
  split.
  - intros Heq. apply Hacc. rewrite Heq. apply N.le_refl.
  - intros Herr. destruct (N.lt_ge_cases maxSize (file_size f)) as [Hlt | Hle];
      [exact Hlt |].
    destruct (Hacc Hle) as [r [tr [Hrun Hne]]].
    rewrite Hrun in Herr. cbn in Herr. contradiction.
Qed.

Lemma size_limit_is_strict_witness :
  isSupported (wav 26214400) = true
  /\ file_size (wav 26214400) = maxSize
  /\ exists r tr, run (backends (Some "hi")) (wav 26214400)
                  = (r, ApiPost (wav 26214400) :: tr)
                  /\ r <> inl fileTooLargeError.
Proof.
  split; [reflexivity | split; [reflexivity |]].
  apply (proj1 (size_limit_is_strict (backends (Some "hi")) (wav 26214400)
                  eq_refl)).
  reflexivity.
Defined.

End OrchestratorClaims.

(* ================================================================= *)
(** * Properties of [convertToFloat32Array] *)

Section NormalizerFacts.
Import Js SignalNormalizer.

Local Open Scope Q_scope.

Lemma Qgt_bool_true (a b : Q) : Qgt_bool a b = true -> b < a.
Proof.
  unfold Qgt_bool. intros H. apply negb_true_iff in H.
  apply Qnot_le_lt. intros Hle. apply Qle_bool_iff in Hle. congruence.
Qed.

Lemma Qgt_bool_false (a b : Q) : Qgt_bool a b = false -> a <= b.
Proof.
  unfold Qgt_bool. intros H. apply negb_false_iff in H.
  now apply Qle_bool_iff.
Qed.

(** The running maximum never decreases. *)
Lemma fold_maxStep_ge_acc (l : list Q) : forall acc,
  acc <= fold_left maxStep l acc.
Proof.
  induction l as [| x l IH]; intros acc; cbn [fold_left].
  - apply Qle_refl.
  - eapply Qle_trans; [| apply IH].
    unfold maxStep. destruct (Qgt_bool (Qabs x) acc) eqn:E.
    + apply Qlt_le_weak. now apply Qgt_bool_true.
    + apply Qle_refl.
Qed.

(** It dominates every sample it has seen. *)
Lemma fold_maxStep_ge_sample (l : list Q) : forall acc x,
  In x l -> Qabs x <= fold_left maxStep l acc.
Proof.
  induction l as [| y l IH]; intros acc x Hin; [destruct Hin |].
  cbn [fold_left]. destruct Hin as [-> | Hin].
  - eapply Qle_trans; [| apply fold_maxStep_ge_acc].
    unfold maxStep. destruct (Qgt_bool (Qabs x) acc) eqn:E.
    + apply Qle_refl.
    + now apply Qgt_bool_false.
  - now apply IH.
Qed.

(** It is the start value or the absolute value of a sample. *)
Lemma fold_maxStep_attained (l : list Q) : forall acc,
  fold_left maxStep l acc = acc
  \/ exists x, In x l /\ fold_left maxStep l acc = Qabs x.
Proof.
  induction l as [| y l IH]; intros acc; cbn [fold_left]; [now left |].
  destruct (IH (maxStep acc y)) as [Heq | [x [Hin Heq]]].
  - rewrite Heq. unfold maxStep.
    destruct (Qgt_bool (Qabs y) acc).
    + right. exists y. split; [now left | reflexivity].
    + now left.
  - right. exists x. split; [now right | exact Heq].
Qed.

(** It stays below any bound on the start value and the samples. *)
Lemma fold_maxStep_le (c : Q) (l : list Q) : forall acc,
  acc <= c -> (forall x, In x l -> Qabs x <= c) ->
  fold_left maxStep l acc <= c.
Proof.
  induction l as [| y l IH]; intros acc Hacc Hall; cbn [fold_left]; [exact Hacc |].
  apply IH.
  - unfold maxStep. destruct (Qgt_bool (Qabs y) acc); [| exact Hacc].
    apply Hall. now left.
  - intros x Hin. apply Hall. now right.
Qed.

Lemma maxAbs_nonneg (l : list Q) : 0 <= maxAbs l.
Proof. apply fold_maxStep_ge_acc. Qed.

Lemma orOne_pos (m : Q) : 0 <= m -> 0 < orOne m.
Proof.
  intros Hm. unfold orOne. destruct (Qeq_bool m 0) eqn:E.
  - reflexivity.
  - apply Qeq_bool_neq in E. apply Qle_lt_or_eq in Hm.
    destruct Hm as [Hlt | Heq]; [exact Hlt |].
    exfalso. apply E. symmetry. exact Heq.
Qed.

(** The divisor of the second loop is never zero. *)
Lemma divisor_pos (raw : list Q) : 0 < orOne (maxAbs raw).
Proof. apply orOne_pos, maxAbs_nonneg. Qed.

Lemma div_finite (a b : Q) : 0 < b -> div a b = Fin (a / b).
Proof.
  intros Hb. unfold div. destruct (Qeq_bool b 0) eqn:E; [| reflexivity].
  apply Qeq_bool_eq in E. rewrite E in Hb. discriminate Hb.
Qed.

(** The second loop produces finite samples only. *)
Lemma normalizedData_finite (raw : list Q) :
  normalizedData raw = map Fin (scaledSamples raw).
Proof.
  unfold normalizedData, scaledSamples. rewrite map_map. apply map_ext.
  intros x. apply div_finite, divisor_pos.
Qed.

Lemma maxAbs_le_orOne (m : Q) : 0 <= m -> m <= orOne m.
Proof.
  intros Hm. unfold orOne. destruct (Qeq_bool m 0) eqn:E.
  - apply Qeq_bool_eq in E. rewrite E. discriminate.
  - apply Qle_refl.
Qed.

Lemma Qabs_div_pos (x m : Q) : 0 < m -> Qabs (x / m) == Qabs x / m.
Proof.
  intros Hm. unfold Qdiv. rewrite Qabs_Qmult, Qabs_Qinv.
  rewrite (Qabs_pos m) by now apply Qlt_le_weak. reflexivity.
Qed.

(** Every scaled sample lies in [[-1, 1]]. *)
Lemma scaled_le_1 (raw : list Q) (q : Q) :
  In q (scaledSamples raw) -> Qabs q <= 1.
Proof.
  unfold scaledSamples. intros Hin. apply in_map_iff in Hin.
  destruct Hin as [x [<- Hx]].
  pose proof (divisor_pos raw) as Hpos.
  rewrite (Qabs_div_pos x _ Hpos).
  apply Qle_shift_div_r; [exact Hpos |].
  rewrite Qmult_1_l.
  eapply Qle_trans; [apply (fold_maxStep_ge_sample raw 0 x Hx) |].
  apply maxAbs_le_orOne, maxAbs_nonneg.
Qed.

Lemma maxAbs_le_1 (raw qs : list Q) :
  (forall q, In q qs -> In q (scaledSamples raw)) -> maxAbs qs <= 1.
Proof.
  intros Hsub. apply fold_maxStep_le; [discriminate |].
  intros q Hq. apply (scaled_le_1 raw), Hsub, Hq.
Qed.

Lemma zero_scaled (raw : list Q) (q : Q) :
  (forall x, In x raw -> x == 0) -> In q (scaledSamples raw) -> q == 0.
Proof.
  unfold scaledSamples. intros Hz Hin. apply in_map_iff in Hin.
  destruct Hin as [x [<- Hx]]. rewrite (Hz x Hx).
  unfold Qdiv. apply Qmult_0_l.
Qed.

(** Without resampling the peak is 0 or exactly 1. *)
Lemma maxAbs_scaled_cases (raw : list Q) :
  maxAbs (scaledSamples raw) == 0 \/ maxAbs (scaledSamples raw) == 1.
Proof.
  pose proof (divisor_pos raw) as Hpos.
  destruct (Qeq_bool (maxAbs raw) 0) eqn:E.
  - left. apply Qeq_bool_eq in E.
    apply Qle_antisym; [| apply maxAbs_nonneg].
    apply fold_maxStep_le; [apply Qle_refl |].
    intros q Hq.
    assert (Hq0 : q == 0).
    { apply (zero_scaled raw); [| exact Hq].
      intros x Hx.
      assert (Hax : Qabs x <= 0).
      { rewrite <- E. apply (fold_maxStep_ge_sample raw 0 x Hx). }
      apply Qabs_Qle_condition in Hax. destruct Hax as [Hlo Hhi].
      apply Qle_antisym; assumption. }
    rewrite Hq0. discriminate.
  - right.
    apply Qle_antisym; [apply (maxAbs_le_1 raw); auto |].
    destruct (fold_maxStep_attained raw 0) as [H0 | [x [Hx Hmax]]].
    + fold (maxAbs raw) in H0. rewrite H0 in E. discriminate E.
    + fold (maxAbs raw) in Hmax.
      assert (Hin : In (x / orOne (maxAbs raw)) (scaledSamples raw)).
      { unfold scaledSamples. apply in_map_iff. exists x. split; [reflexivity | exact Hx]. }
      eapply Qle_trans; [| apply (fold_maxStep_ge_sample _ 0 _ Hin)].
      rewrite (Qabs_div_pos x _ Hpos).
      apply Qle_shift_div_l; [exact Hpos |].
      rewrite Qmult_1_l. unfold orOne. rewrite E, Hmax. apply Qle_refl.
Qed.

Lemma resampleRatio_pos (rate : positive) : 0 < resampleRatio rate.
Proof.
  unfold resampleRatio. apply Qlt_shift_div_l; reflexivity.
Qed.

(** [Math.floor(length * (16000 / rate))] is the integer quotient. *)
Lemma resampledLength_div (len : nat) (rate : positive) :
  resampledLength len rate = (Z.of_nat len * 16000 / Z.pos rate)%Z.
Proof.
  unfold resampledLength, resampleRatio, targetRate.
  rewrite Zdiv_Qdiv. apply Qfloor_comp.
  rewrite inject_Z_mult. unfold Qdiv. apply Qmult_assoc.
Qed.

Lemma resampledLength_nonneg (len : nat) (rate : positive) :
  (0 <= resampledLength len rate)%Z.
Proof.
  rewrite resampledLength_div. apply Z.div_pos; lia.
Qed.

(** The third loop never reads past the end of [normalizedData]. *)
Lemma originalIndex_in_range (len i : nat) (rate : positive) :
  (i < Z.to_nat (resampledLength len rate))%nat ->
  (Z.to_nat (originalIndex i rate) < len)%nat.
Proof.
  intros Hi.
  pose proof (resampleRatio_pos rate) as Hr.
  pose proof (resampledLength_nonneg len rate) as HL.
  assert (Hi1 : (Z.of_nat i + 1 <= resampledLength len rate)%Z) by lia.
  assert (Hlt : inject_Z (Z.of_nat i) < inject_Z (Z.of_nat len) * resampleRatio rate).
  { eapply Qlt_le_trans; [| apply (Qfloor_le (inject_Z (Z.of_nat len) * resampleRatio rate))].
    fold (resampledLength len rate).
    rewrite <- Zlt_Qlt. lia. }
  assert (Hq : inject_Z (Z.of_nat i) / resampleRatio rate < inject_Z (Z.of_nat len)).
  { apply Qlt_shift_div_r; assumption. }
  assert (Hf : (originalIndex i rate < Z.of_nat len)%Z).
  { rewrite Zlt_Qlt. eapply Qle_lt_trans; [apply Qfloor_le | exact Hq]. }
  assert (H0 : (0 <= originalIndex i rate)%Z).
  { unfold originalIndex. change 0%Z with (Qfloor 0).
    apply Qfloor_resp_le. apply Qle_shift_div_l; [exact Hr |].
    rewrite Qmult_0_l. change 0 with (inject_Z 0). rewrite <- Zle_Qle. lia. }
  lia.
Qed.

(** The resampled buffer holds finite samples, each one a scaled
    sample. *)
Lemma resampledData_finite (rate : positive) (qs : list Q) :
  exists rs,
    resampledData rate (map Fin qs) = map Fin rs
    /\ (forall q, In q rs -> In q qs)
    /\ length rs = Z.to_nat (resampledLength (length qs) rate).
Proof.
  exists (map (fun i => nth (Z.to_nat (originalIndex i rate)) qs 0)
              (seq 0 (Z.to_nat (resampledLength (length qs) rate)))).
  split; [| split].
  - unfold resampledData. rewrite length_map, map_map.
    apply map_ext_in. intros i Hi. apply in_seq in Hi.
    assert (Hlt : (Z.to_nat (originalIndex i rate) < length qs)%nat)
      by (apply originalIndex_in_range; lia).
    rewrite (nth_indep (map Fin qs) NaN (Fin 0)) by (now rewrite length_map).
    apply map_nth.
  - intros q Hq. apply in_map_iff in Hq. destruct Hq as [i [<- Hi]].
    apply in_seq in Hi. apply nth_In, originalIndex_in_range. lia.
  - now rewrite length_map, length_seq.
Qed.

(** The shape of every successful conversion. *)
Lemma convert_finite (buf : AudioBuffer) :
  exists qs,
    convertToFloat32Array (inr buf) = inr (map Fin qs)
    /\ (forall q, In q qs -> In q (scaledSamples (channelData0 buf)))
    /\ (sampleRate buf = targetRate -> qs = scaledSamples (channelData0 buf))
    /\ (sampleRate buf <> targetRate ->
        length qs = Z.to_nat (resampledLength (length (channelData0 buf))
                                              (sampleRate buf))).
Proof.
  unfold convertToFloat32Array. rewrite normalizedData_finite.
  destruct (Pos.eqb (sampleRate buf) targetRate) eqn:E; cbn [negb].
  - apply Pos.eqb_eq in E.
    exists (scaledSamples (channelData0 buf)).
    split; [reflexivity | split; [auto | split; [reflexivity |]]].
    intros Hne. contradiction.
  - apply Pos.eqb_neq in E.
    destruct (resampledData_finite (sampleRate buf)
                (scaledSamples (channelData0 buf))) as [rs [Heq [Hsub Hlen]]].
    exists rs.
    split; [now rewrite Heq | split; [exact Hsub | split]].
    + intros Heq'. contradiction.
    + intros _. rewrite Hlen. unfold scaledSamples. now rewrite length_map.
Qed.

End NormalizerFacts.

Section Binary64Facts.
Import Binary64 Resampler64.

Local Open Scope Q_scope.

Lemma pow2_pos (e : Z) : 0 < pow2 e.
Proof. apply Qpower_0_lt. reflexivity. Qed.

Lemma pow2_nat (z : Z) : (0 <= z)%Z -> pow2 z == inject_Z (2 ^ z).
Proof. intros Hz. unfold pow2. now rewrite Zpower_Qpower. Qed.

Lemma ilog2_le (q : Q) : 0 < q -> pow2 (ilog2 q) <= q.
Proof.
  intros Hq. unfold ilog2.
  destruct (Qle_bool _ q) eqn:E; [now apply Qle_bool_iff |].
  destruct q as [a b]. cbn [Qnum Qden].
  assert (Ha : (0 < a)%Z).
  { unfold Qlt in Hq. cbn in Hq. lia. }
  pose proof (Z.log2_spec a Ha) as [Hla _].
  pose proof (Z.log2_spec (Z.pos b) (Pos2Z.is_pos b)) as [_ Hlb].
  pose proof (Z.log2_nonneg a) as Hna.
  pose proof (Z.log2_nonneg (Z.pos b)) as Hnb.
  replace (Z.log2 a - Z.log2 (Z.pos b) - 1)%Z
    with (Z.log2 a - Z.succ (Z.log2 (Z.pos b)))%Z by lia.
  unfold pow2. rewrite Qpower_minus by discriminate.
  fold (pow2 (Z.log2 a)). fold (pow2 (Z.succ (Z.log2 (Z.pos b)))).
  rewrite !pow2_nat by lia.
  rewrite (Qmake_Qdiv a b).
  apply Qle_shift_div_l.
  - change 0 with (inject_Z 0). rewrite <- Zlt_Qlt. lia.
  - unfold Qdiv. rewrite <- Qmult_assoc, (Qmult_comm (/ _)), Qmult_assoc.
    apply Qle_shift_div_r.
    + change 0 with (inject_Z 0). rewrite <- Zlt_Qlt. lia.
    + rewrite <- !inject_Z_mult, <- Zle_Qle. nia.
Qed.






Lemma Qfloor_ge (y : Q) (z : Z) : inject_Z z <= y -> (z <= Qfloor y)%Z.
Proof.
  intros H. rewrite <- (Qfloor_Z z). now apply Qfloor_resp_le.
Qed.

Lemma Qfloor_lt (y : Q) (z : Z) : y < inject_Z z -> (Qfloor y < z)%Z.
Proof.
  intros H. rewrite Zlt_Qlt. eapply Qle_lt_trans; [apply Qfloor_le | exact H].
Qed.



Lemma ilog2_lt (q : Q) : 0 < q -> q < pow2 (ilog2 q + 1).
Proof.
  intros Hq. unfold ilog2.
  destruct (Qle_bool _ q) eqn:E.
  - destruct q as [a b]. cbn [Qnum Qden] in *.
    assert (Ha : (0 < a)%Z).
    { unfold Qlt in Hq. cbn in Hq. lia. }
    pose proof (Z.log2_spec a Ha) as [_ Hla].
    pose proof (Z.log2_spec (Z.pos b) (Pos2Z.is_pos b)) as [Hlb _].
    pose proof (Z.log2_nonneg a) as Hna.
    pose proof (Z.log2_nonneg (Z.pos b)) as Hnb.
    replace (Z.log2 a - Z.log2 (Z.pos b) + 1)%Z
      with (Z.succ (Z.log2 a) - Z.log2 (Z.pos b))%Z by lia.
    unfold pow2. rewrite Qpower_minus by discriminate.
    fold (pow2 (Z.succ (Z.log2 a))). fold (pow2 (Z.log2 (Z.pos b))).
    rewrite !pow2_nat by lia.
    rewrite (Qmake_Qdiv a b).
    assert (Hp : (0 < 2 ^ Z.log2 (Z.pos b))%Z) by (apply Z.pow_pos_nonneg; lia).
    apply Qlt_shift_div_r.
    + change 0 with (inject_Z 0). rewrite <- Zlt_Qlt. lia.
    + unfold Qdiv. rewrite <- Qmult_assoc, (Qmult_comm (/ _)), Qmult_assoc.
      apply Qlt_shift_div_l.
      * change 0 with (inject_Z 0). rewrite <- Zlt_Qlt. lia.
      * rewrite <- !inject_Z_mult, <- Zlt_Qlt. nia.
  - replace (Z.log2 (Qnum q) - Z.log2 (Z.pos (Qden q)) - 1 + 1)%Z
      with (Z.log2 (Qnum q) - Z.log2 (Z.pos (Qden q)))%Z by lia.
    apply Qnot_le_lt. intros H. apply Qle_bool_iff in H. congruence.
Qed.

(** The rounded value has a significand of 53 bits. *)
Lemma roundPos_significand (q : Q) :
  0 < q ->
  exists m e, roundPos q == inject_Z m * pow2 e
              /\ (2 ^ 52 <= m <= 2 ^ 53)%Z.
Proof.
  intros Hq. unfold roundPos.
  set (e := (ilog2 q - 52)%Z).
  exists (roundEven (q / pow2 e)), e. split; [apply Qred_correct |].
  pose proof (pow2_pos e) as HP.
  assert (Hlo : 4503599627370496 <= q / pow2 e).
  { apply Qle_shift_div_l; [exact HP |].
    setoid_replace (4503599627370496 * pow2 e) with (pow2 (ilog2 q)).
    - now apply ilog2_le.
    - change 4503599627370496 with (pow2 52). unfold pow2.
      rewrite <- Qpower_plus by discriminate. unfold e.
      now replace (52 + (ilog2 q - 52))%Z with (ilog2 q) by lia. }
  assert (Hhi : q / pow2 e < 9007199254740992).
  { apply Qlt_shift_div_r; [exact HP |].
    setoid_replace (9007199254740992 * pow2 e) with (pow2 (ilog2 q + 1)).
    - now apply ilog2_lt.
    - change 9007199254740992 with (pow2 53). unfold pow2.
      rewrite <- Qpower_plus by discriminate. unfold e.
      now replace (53 + (ilog2 q - 52))%Z with (ilog2 q + 1)%Z by lia. }
  assert (Hf1 : (4503599627370496 <= Qfloor (q / pow2 e))%Z).
  { apply Qfloor_ge. exact Hlo. }
  assert (Hf2 : (Qfloor (q / pow2 e) < 9007199254740992)%Z).
  { apply Qfloor_lt. exact Hhi. }
  change (2 ^ 52)%Z with 4503599627370496%Z.
  change (2 ^ 53)%Z with 9007199254740992%Z.
  unfold roundEven.
  destruct (Qcompare _ _); [destruct (Z.even _) |..]; lia.
Qed.

(** The two runs in which binary64 and exact arithmetic part. *)
Example length_49_at_98000 :
  bufferLength (silent 49 98000) = 7%nat /\ (49 * 16000 / 98000 = 8)%Z.
Proof. split; vm_compute; reflexivity. Qed.

Example length_5507_at_44056 :
  bufferLength (silent (Z.to_nat 5507) 44056) = 1999%nat /\ (5507 * 16000 / 44056 = 2000)%Z.
Proof. split; vm_compute; reflexivity. Qed.

End Binary64Facts.

Section Binary64Agreement.
Import PrimFloat.

(** The rounding agrees with the binary64 arithmetic of the machine on
    the quotients and products of the runs below, and on a tie. *)
Example rounding_agrees_49_98000 :
  Binary64.valueOf (49 * (16000 / 98000))%float
  = Some (Binary64.mul 49 (Binary64.div 16000 98000)).
Proof. vm_compute. reflexivity. Qed.

Example rounding_agrees_5507_44056 :
  Binary64.valueOf (5507 * (16000 / 44056))%float
  = Some (Binary64.mul 5507 (Binary64.div 16000 44056)).
Proof. vm_compute. reflexivity. Qed.

Example rounding_agrees_441_44100 :
  Binary64.valueOf (441 * (16000 / 44100))%float
  = Some (Binary64.mul 441 (Binary64.div 16000 44100)).
Proof. vm_compute. reflexivity. Qed.

Example rounding_agrees_third :
  Binary64.valueOf (3 * (1 / 3))%float
  = Some (Binary64.mul 3 (Binary64.div 1 3)).
Proof. vm_compute. reflexivity. Qed.

Example rounding_agrees_tie_to_even :
  Binary64.valueOf (4503599627370497 * 1.5)%float
  = Some (Binary64.mul 4503599627370497 (3 # 2))
  /\ Binary64.mul 4503599627370497 (3 # 2) = 6755399441055746%Q.
Proof. split; vm_compute; reflexivity. Qed.

Example rounding_agrees_tie_stays_even :
  Binary64.valueOf (4503599627370499 * 1.5)%float
  = Some (Binary64.mul 4503599627370499 (3 # 2))
  /\ Binary64.mul 4503599627370499 (3 # 2) = 6755399441055748%Q.
Proof. split; vm_compute; reflexivity. Qed.

(** The same on a grid of lengths and rates. *)
Example rounding_agrees_on_grid :
  forallb (fun rate => forallb (fun n => Binary64.agreesAt n rate)
                         Binary64.sampleLengths)
          Binary64.sampleRates = true.
Proof. vm_compute. reflexivity. Qed.

End Binary64Agreement.

Section NormalizerClaims.
Import Js SignalNormalizer Samples.

Local Open Scope Q_scope.

(** C3, as the code has it.  Every decoded input is converted to a
    buffer of finite samples whose largest absolute value is at most 1;
    when the source rate is 16000 Hz, so that the buffer is not
    resampled, that largest absolute value is 0 or exactly 1. *)
Theorem peak_is_0_or_1_without_resampling (buf : AudioBuffer) :
  exists qs,
    convertToFloat32Array (inr buf) = inr (map Fin qs)
    /\ maxAbs qs <= 1
    /\ (sampleRate buf = targetRate -> maxAbs qs == 0 \/ maxAbs qs == 1).
Proof.
  destruct (convert_finite buf) as [qs [Hconv [Hsub [Hsame _]]]].
  exists qs. split; [exact Hconv | split].
  - apply (maxAbs_le_1 (channelData0 buf)), Hsub.
  - intros Hrate. rewrite (Hsame Hrate). apply maxAbs_scaled_cases.
Qed.

(** C3, as the claim states it, fails: at 32000 Hz the resampler keeps
    the samples of even index only, so the peak at index 1 is dropped
    and the largest absolute value of the result is one half. *)
Lemma resampling_can_drop_the_peak :
  convertToFloat32Array (inr halfThenFull32k) = inr [Fin (1 # 2)]
  /\ ~ (maxAbs [1 # 2] == 0 \/ maxAbs [1 # 2] == 1).
Proof.
  split; [reflexivity |].
  intros [H | H]; vm_compute in H; discriminate H.
Qed.




(** C9.  When every decoded sample is zero, the divisor of the
    normalization is 1, not 0, and every sample of the converted buffer
    is the number zero: none is [NaN] or infinite. *)
Theorem silence_stays_silent (buf : AudioBuffer) :
  (forall x, In x (channelData0 buf) -> x == 0) ->
  orOne (maxAbs (channelData0 buf)) = 1
  /\ exists out,
       convertToFloat32Array (inr buf) = inr out
       /\ forallb isZero out = true.
Proof.
  intros Hz. split.
  - assert (H0 : maxAbs (channelData0 buf) == 0).
    { apply Qle_antisym; [| apply maxAbs_nonneg].
      apply fold_maxStep_le; [apply Qle_refl |].
      intros x Hx. rewrite (Hz x Hx). discriminate. }
    unfold orOne. apply Qeq_bool_iff in H0. now rewrite H0.
  - destruct (convert_finite buf) as [qs [Hconv [Hsub _]]].
    exists (map Fin qs). split; [exact Hconv |].
    apply forallb_forall. intros y Hy.
    apply in_map_iff in Hy. destruct Hy as [q [<- Hq]].
    cbn. apply Qeq_bool_iff.
    apply (zero_scaled (channelData0 buf)); [exact Hz | apply Hsub, Hq].
Qed.

Lemma silence_stays_silent_witness :
  orOne (maxAbs (channelData0 silence44k)) = 1
  /\ exists out,
       convertToFloat32Array (inr silence44k) = inr out
       /\ forallb isZero out = true.
Proof.
  apply (silence_stays_silent silence44k).
  intros x Hx. cbn in Hx.
  destruct Hx as [<- | [<- | [<- | []]]]; reflexivity.
Defined.

End NormalizerClaims.

(* ================================================================= *)
(** * Properties of [transcribeWithSarvam] *)

Section SarvamClaims.
Import Js Sarvam Samples.

Local Open Scope Q_scope.

Lemma truthy_num_nonzero (q : Q) : ~ q == 0 -> truthy_num (Some q) = Some q.
Proof.
  intros Hq. cbn. destruct (Qeq_bool q 0) eqn:E; [| reflexivity].
  apply Qeq_bool_eq in E. contradiction.
Qed.

(** A segment with a non-zero [start] and a non-zero [end] keeps both. *)
Lemma processSegment_explicit_times (segment : RawSegment) (s e : Q) :
  seg_start segment = Some s -> ~ s == 0 ->
  seg_end segment = Some e -> ~ e == 0 ->
  chunk_start (processSegment segment) = s
  /\ chunk_end (processSegment segment) = e.
Proof.
  intros Hs Hs0 He He0. unfold processSegment. cbn [chunk_start chunk_end].
  rewrite Hs, He, (truthy_num_nonzero s Hs0), (truthy_num_nonzero e He0).
  split; reflexivity.
Qed.

Lemma transcribeWithSarvam_chunks key resp data result :
  transcribeWithSarvam key (inr resp) = inr result ->
  json resp = inr data ->
  chunks result = processedSegments (rawSegments data).
Proof.
  unfold transcribeWithSarvam. intros Hrun Hjson.
  destruct (truthy_str key); [| discriminate].
  destruct (ok resp); cbn [negb] in Hrun; [| discriminate].
  rewrite Hjson in Hrun.
  destruct (or_opt _ _); [| discriminate].
  injection Hrun as <-. reflexivity.
Qed.

(** C4, as the code has it.  The chunk list of [transcribeWithSarvam]
    has one chunk per raw segment, in the order of the answer, and a
    segment that carries a non-zero [start] and a non-zero [end] keeps
    exactly these two times, whatever the segments before it say: no
    start is clipped. *)
Theorem sarvam_times_pass_through key resp data result i segment (s e : Q) :
  transcribeWithSarvam key (inr resp) = inr result ->
  json resp = inr data ->
  nth_error (rawSegments data) i = Some segment ->
  seg_start segment = Some s -> ~ s == 0 ->
  seg_end segment = Some e -> ~ e == 0 ->
  length (chunks result) = length (rawSegments data)
  /\ exists c, nth_error (chunks result) i = Some c
               /\ chunk_start c = s /\ chunk_end c = e.
Proof.
  intros Hrun Hjson Hnth Hs Hs0 He He0.
  rewrite (transcribeWithSarvam_chunks key resp data result Hrun Hjson).
  unfold processedSegments. split; [apply length_map |].
  exists (processSegment segment). split.
  - now apply map_nth_error.
  - now apply processSegment_explicit_times.
Qed.

Lemma sarvam_times_pass_through_witness :
  length [mkChunk "a" 1 5; mkChunk "b" 3 6] = 2%nat
  /\ exists c, nth_error [mkChunk "a" 1 5; mkChunk "b" 3 6] 1 = Some c
               /\ chunk_start c = 3 /\ chunk_end c = 6.
Proof.
  apply (sarvam_times_pass_through (Some "key") overlappingAnswer
           {| d_text := Some "a b"; d_transcript := None;
              d_transcription := None;
              d_segments := Some [explicitSegment "a" 1 5;
                                  explicitSegment "b" 3 6];
              d_chunks := None |}
           {| text := "a b"; chunks := [mkChunk "a" 1 5; mkChunk "b" 3 6] |}
           1%nat (explicitSegment "b" 3 6) 3 6).
  - reflexivity.
  - reflexivity.
  - reflexivity.
  - reflexivity.
  - discriminate.
  - reflexivity.
  - discriminate.
Defined.

(** C4, as the claim states it, fails: the second segment of the answer
    starts at 3, before the first one ends at 5, and the chunk built
    from it still starts at 3. *)
Lemma overlapping_segments_are_not_clipped :
  transcribeWithSarvam (Some "key") (inr overlappingAnswer)
  = inr {| text := "a b"; chunks := [mkChunk "a" 1 5; mkChunk "b" 3 6] |}
  /\ nonOverlapping [mkChunk "a" 1 5; mkChunk "b" 3 6] = false.
Proof. split; reflexivity. Qed.

End SarvamClaims.

(* ================================================================= *)
(** * Properties of [transcribeWithWhisper] *)

Section WhisperClaims.
Import Js Whisper Samples.

Variable JSON_parse : string -> string + WhisperOutput.

Lemma settle_effects (p : Promise) (st : State) :
  effects (settle p st) = effects st.
Proof. unfold settle. destruct (promise st); reflexivity. Qed.

Lemma existsb_isKill_app (l : list Effect) (e : Effect) :
  existsb isKill (l ++ [e]) = (existsb isKill l || isKill e)%bool.
Proof. rewrite existsb_app. cbn. now rewrite orb_false_r. Qed.

(** No handler kills the child process. *)
Lemma step_never_kills (st : State) (ev : ProcessEvent) :
  existsb isKill (effects st) = false ->
  existsb isKill (effects (step JSON_parse st ev)) = false.
Proof.
  intros Hst. destruct ev as [chunk | chunk | exitCode | msg | ms]; cbn [step effects];
    try exact Hst.
  - unfold onClose.
    destruct exitCode as [[| p | p] |]; try (now rewrite settle_effects).
    destruct (JSON_parse (outputData st)) as [err | result];
      [now rewrite settle_effects |].
    destruct (truthy_str (out_error result)); [now rewrite settle_effects |].
    destruct (out_segments result); rewrite settle_effects; cbn [perform effects];
      rewrite existsb_isKill_app, Hst; reflexivity.
  - now rewrite settle_effects.
Qed.

Lemma run_never_kills (events : list ProcessEvent) : forall st,
  existsb isKill (effects st) = false ->
  existsb isKill (effects (fold_left (step JSON_parse) events st)) = false.
Proof.
  induction events as [| ev events IH]; intros st Hst; cbn [fold_left];
    [exact Hst |].
  apply IH, step_never_kills, Hst.
Qed.

(** While the child process neither closes nor fails, the promise stays
    as it is and nothing is done to the outside world. *)
Lemma running_keeps_promise (events : list ProcessEvent) : forall st,
  stillRunning events = true ->
  promise (fold_left (step JSON_parse) events st) = promise st
  /\ effects (fold_left (step JSON_parse) events st) = effects st.
Proof.
  induction events as [| ev events IH]; intros st Hrun; cbn [fold_left];
    [split; reflexivity |].
  unfold stillRunning in Hrun. cbn [forallb] in Hrun.
  apply andb_true_iff in Hrun. destruct Hrun as [Hev Hrest].
  destruct (IH (step JSON_parse st ev) Hrest) as [Hp He].
  rewrite Hp, He.
  destruct ev; cbn in Hev; try discriminate; split; reflexivity.
Qed.

End WhisperClaims.

(** C6, as the code has it.  [transcribeWithWhisper] enforces no timeout:
    no run of it ever kills the child process, and when the Python
    environment and the audio file exist, a run in which the child
    process neither closes nor fails to start leaves the call pending,
    with the spawn as its only effect, however much time passes. *)
Theorem whisper_call_has_no_timeout
    (JSON_parse : string -> string + Whisper.WhisperOutput)
    (env : Whisper.FsEnv) (events : list Whisper.ProcessEvent) :
  Whisper.pythonExists env = true ->
  Whisper.audioExists env = true ->
  existsb Whisper.isKill
    (Whisper.effects (Whisper.transcribeWithWhisper JSON_parse env events)) = false
  /\ (Whisper.stillRunning events = true ->
      Whisper.promise (Whisper.transcribeWithWhisper JSON_parse env events)
      = Whisper.Pending
      /\ Whisper.effects (Whisper.transcribeWithWhisper JSON_parse env events)
         = [Whisper.Spawn]).
Proof.
  intros Hpy Haudio.
  unfold Whisper.transcribeWithWhisper, Whisper.start.
  rewrite Hpy, Haudio. cbn [negb Whisper.spawned Whisper.effects].
  split.
  - apply run_never_kills. reflexivity.
  - intros Hrun.
    destruct (running_keeps_promise JSON_parse events
                (Whisper.mkState "" "" Whisper.Pending [Whisper.Spawn]) Hrun)
      as [Hp He].
    split; assumption.
Qed.

Lemma whisper_call_has_no_timeout_witness :
  Whisper.stillRunning Samples.hungRun = true
  /\ Whisper.promise
       (Whisper.transcribeWithWhisper Samples.rejectingParse Samples.readyEnv
          Samples.hungRun) = Whisper.Pending
  /\ Whisper.effects
       (Whisper.transcribeWithWhisper Samples.rejectingParse Samples.readyEnv
          Samples.hungRun) = [Whisper.Spawn].
Proof.
  split; [reflexivity |].
  apply (proj2 (whisper_call_has_no_timeout Samples.rejectingParse
                  Samples.readyEnv Samples.hungRun eq_refl eq_refl)).
  reflexivity.
Defined.

(** C6, as the claim states it, fails: the child process runs for an hour
    without exiting, and the call is still pending and the process has not
    been killed. *)
Lemma hung_process_is_never_killed :
  Whisper.elapsed Samples.hungRun = 3600000%N
  /\ Whisper.promise
       (Whisper.transcribeWithWhisper Samples.rejectingParse Samples.readyEnv
          Samples.hungRun) = Whisper.Pending
  /\ existsb Whisper.isKill
       (Whisper.effects
          (Whisper.transcribeWithWhisper Samples.rejectingParse Samples.readyEnv
             Samples.hungRun)) = false.
Proof. repeat split. Qed.

(* ================================================================= *)
(** * Further properties of [transcribeAudio] *)

Section OrchestratorMore.
Import Js Orchestrator Samples Fixtures.

(** Validation splits the files in two. *)
Lemma validation_cases (f : File) :
  (isSupported f = false)
  \/ (isSupported f = true /\ (maxSize < file_size f)%N)
  \/ (isSupported f = true /\ (file_size f <= maxSize)%N).
Proof.
  destruct (isSupported f); [| now left].
  right. destruct (N.lt_ge_cases maxSize (file_size f)); [left | right]; auto.
Qed.

(** The backends are called in order, each at most once, on the file of
    the call: the log of a run is empty (the file was rejected by the
    validation), the POST alone, or the POST followed by the local
    transcription. *)
Theorem backend_calls_are_sequential (B : Backends) (f : File) :
  (snd (run B f) = []
   /\ (isSupported f = false \/ (maxSize < file_size f)%N))
  \/ (isSupported f = true /\ (file_size f <= maxSize)%N
      /\ (snd (run B f) = [ApiPost f]
          \/ snd (run B f) = [ApiPost f; LocalTranscription f])).
Proof.
  destruct (validation_cases f) as [Hs | [[Hs Hlt] | [Hs Hle]]].
  - left. rewrite (run_rejects_format B f Hs). auto.
  - left. rewrite (run_rejects_size B f Hs Hlt). auto.
  - right. split; [exact Hs | split; [exact Hle |]].
    rewrite (run_accepted B f Hs Hle).
    destruct (axios_post B f) as [e | [d |]]; auto.
    destruct (truthy_str (data_text d)); auto.
Qed.

(** Whatever [transcribeAudio] throws is the format error, the size
    error, or the error of [transcribeLocally] behind the prefix
    ["Failed to process audio: "].  An error of the POST, an axios
    timeout included, never reaches the caller, so the timeout message
    of the outer [catch] is never thrown. *)
Theorem thrown_errors (B : Backends) (f : File) (e : JsError) (tr : Trace) :
  run B f = (inl e, tr) ->
  ((e = unsupportedFormatError /\ tr = [])
   \/ (e = fileTooLargeError /\ tr = [])
   \/ (exists le, transcribeLocally B f = inl le
                  /\ e = Error ("Failed to process audio: " ++ message le)
                  /\ tr = [ApiPost f; LocalTranscription f]))
  /\ isAxiosError e = false
  /\ message e <> "Transcription timed out. Please try a shorter audio file.".
Proof.
  intros Hrun.
  assert (Hcases :
    (e = unsupportedFormatError /\ tr = [])
    \/ (e = fileTooLargeError /\ tr = [])
    \/ (exists le, transcribeLocally B f = inl le
                   /\ e = Error ("Failed to process audio: " ++ message le)
                   /\ tr = [ApiPost f; LocalTranscription f])).
  { destruct (validation_cases f) as [Hs | [[Hs Hlt] | [Hs Hle]]].
    - rewrite (run_rejects_format B f Hs) in Hrun.
      injection Hrun as <- <-. auto.
    - rewrite (run_rejects_size B f Hs Hlt) in Hrun.
      injection Hrun as <- <-. auto.
    - rewrite (run_accepted B f Hs Hle) in Hrun.
      assert (Hlocal : (localOutcome B f, [ApiPost f; LocalTranscription f])
                       = (inl e, tr) ->
                       exists le, transcribeLocally B f = inl le
                         /\ e = Error ("Failed to process audio: " ++ message le)
                         /\ tr = [ApiPost f; LocalTranscription f]).
      { unfold localOutcome. intros H.
        destruct (transcribeLocally B f) as [le | r]; [| discriminate].
        injection H as <- <-. exists le. auto. }
      destruct (axios_post B f) as [ae | [d |]]; auto.
      destruct (truthy_str (data_text d)); [discriminate | auto]. }
  split; [exact Hcases |].
  destruct Hcases as [[-> _] | [[-> _] | [le [_ [-> _]]]]];
    split; try reflexivity; cbn; discriminate.
Qed.

Lemma thrown_errors_witness :
  ((Error "Failed to process audio: Local transcription failed: Unable to load speech recognition model. Please try again."
      = unsupportedFormatError
    /\ [ApiPost (wav 1000); LocalTranscription (wav 1000)] = [])
   \/ (Error "Failed to process audio: Local transcription failed: Unable to load speech recognition model. Please try again."
         = fileTooLargeError
       /\ [ApiPost (wav 1000); LocalTranscription (wav 1000)] = [])
   \/ (exists le, transcribeLocally failingBackends (wav 1000) = inl le
         /\ Error "Failed to process audio: Local transcription failed: Unable to load speech recognition model. Please try again."
            = Error ("Failed to process audio: " ++ message le)
         /\ [ApiPost (wav 1000); LocalTranscription (wav 1000)]
            = [ApiPost (wav 1000); LocalTranscription (wav 1000)]))
  /\ isAxiosError (Error "Failed to process audio: Local transcription failed: Unable to load speech recognition model. Please try again.") = false
  /\ message (Error "Failed to process audio: Local transcription failed: Unable to load speech recognition model. Please try again.")
     <> "Transcription timed out. Please try a shorter audio file.".
Proof.
  apply (thrown_errors failingBackends (wav 1000)).
  reflexivity.
Defined.

(** When the POST of a validated file throws, whatever the error, or
    answers without a body, the run calls [transcribeLocally] and
    answers what that backend answers, an empty transcript included. *)
Theorem failed_post_falls_back (B : Backends) (f : File) :
  isSupported f = true ->
  (file_size f <= maxSize)%N ->
  (exists e, axios_post B f = inl e) \/ axios_post B f = inr None ->
  run B f = (localOutcome B f, [ApiPost f; LocalTranscription f]).
Proof.
  intros Hs Hle Hpost. rewrite (run_accepted B f Hs Hle).
  destruct Hpost as [[e ->] | ->]; reflexivity.
Qed.

Lemma failed_post_falls_back_witness :
  run offlineBackends (wav 1000)
  = (inr {| text := "local"; chunks := [] |},
     [ApiPost (wav 1000); LocalTranscription (wav 1000)]).
Proof.
  apply (failed_post_falls_back offlineBackends (wav 1000)).
  - reflexivity.
  - vm_compute. discriminate.
  - left. exists axiosTimeout. reflexivity.
Defined.

(** A transcript that [transcribeAudio] returns comes from a backend:
    it is the non-empty [text] of the API's answer with that answer's
    chunks, or it is the very result of [transcribeLocally]. *)
Theorem returned_transcript_comes_from_a_backend
    (B : Backends) (f : File) (r : TranscriptionResult) (tr : Trace) :
  run B f = (inr r, tr) ->
  (tr = [ApiPost f]
   /\ exists d, axios_post B f = inr (Some d)
                /\ data_text d = Some (text r) /\ text r <> ""
                /\ chunks r = or_else (data_chunks d) [])
  \/ (tr = [ApiPost f; LocalTranscription f] /\ transcribeLocally B f = inr r).
Proof.
  intros Hrun.
  destruct (validation_cases f) as [Hs | [[Hs Hlt] | [Hs Hle]]].
  - rewrite (run_rejects_format B f Hs) in Hrun. discriminate.
  - rewrite (run_rejects_size B f Hs Hlt) in Hrun. discriminate.
  - rewrite (run_accepted B f Hs Hle) in Hrun.
    assert (Hlocal : (localOutcome B f, [ApiPost f; LocalTranscription f])
                     = (inr r, tr) ->
                     tr = [ApiPost f; LocalTranscription f]
                     /\ transcribeLocally B f = inr r).
    { unfold localOutcome. intros H.
      destruct (transcribeLocally B f) as [le | r']; [discriminate |].
      injection H as <- <-. auto. }
    destruct (axios_post B f) as [ae | [d |]]; auto.
    destruct (data_text d) as [[| c s] |] eqn:Ht; cbn in Hrun; auto.
    injection Hrun as <- <-. left. split; [reflexivity |].
    exists d. cbn. repeat split; auto. discriminate.
Qed.

Lemma returned_transcript_comes_from_a_backend_witness :
  ([ApiPost (wav 1000)] = [ApiPost (wav 1000)]
   /\ exists d, axios_post (backends (Some "hi")) (wav 1000) = inr (Some d)
                /\ data_text d = Some "hi" /\ "hi" <> ""
                /\ [] = or_else (data_chunks d) [])
  \/ ([ApiPost (wav 1000)] = [ApiPost (wav 1000); LocalTranscription (wav 1000)]
      /\ transcribeLocally (backends (Some "hi")) (wav 1000)
         = inr {| text := "hi"; chunks := [] |}).
Proof.
  apply (returned_transcript_comes_from_a_backend (backends (Some "hi")) (wav 1000)
           {| text := "hi"; chunks := [] |} [ApiPost (wav 1000)]).
  reflexivity.
Defined.

End OrchestratorMore.

(* ================================================================= *)
(** * Further properties of [transcribeWithWhisper] *)

Section WhisperMore.
Import Js Whisper WhisperStreams Samples.

Variable JSON_parse : string -> string + WhisperOutput.

Lemma append_assoc_str (a b c : string) : (a ++ b) ++ c = a ++ (b ++ c).
Proof. induction a as [| x a IH]; cbn; [reflexivity | now rewrite IH]. Qed.

Lemma append_empty_r (a : string) : a ++ "" = a.
Proof. induction a as [| x a IH]; cbn; [reflexivity | now rewrite IH]. Qed.

(** While the child process runs, the handlers only accumulate what it
    writes. *)
Lemma running_accumulates (events : list ProcessEvent) : forall st,
  stillRunning events = true ->
  fold_left (step JSON_parse) events st
  = {| outputData := outputData st ++ stdoutOf events;
       errorData := errorData st ++ stderrOf events;
       promise := promise st; effects := effects st |}.
Proof.
  induction events as [| ev events IH]; intros st Hrun.
  - cbn. rewrite !append_empty_r. now destruct st.
  - unfold stillRunning in Hrun. cbn [forallb] in Hrun.
    apply andb_true_iff in Hrun. destruct Hrun as [Hev Hrest].
    cbn [fold_left]. rewrite (IH _ Hrest).
    destruct ev; cbn in Hev; try discriminate; cbn;
      rewrite ?append_assoc_str; reflexivity.
Qed.

Lemma settle_settled (p : Promise) (st : State) :
  promise st <> Pending -> settle p st = st.
Proof. unfold settle. destruct (promise st); congruence. Qed.

Lemma step_keeps_settled (st : State) (ev : ProcessEvent) :
  promise st <> Pending -> promise (step JSON_parse st ev) = promise st.
Proof.
  intros Hs.
  assert (Hp : forall e, promise (perform e st) <> Pending) by (intros e; exact Hs).
  destruct ev as [chunk | chunk | exitCode | msg | ms]; cbn [step promise];
    try reflexivity.
  - unfold onClose.
    destruct exitCode as [[| p | p] |]; try (now rewrite settle_settled).
    destruct (JSON_parse (outputData st)); [now rewrite settle_settled |].
    destruct (truthy_str (out_error w)); [now rewrite settle_settled |].
    destruct (out_segments w); now rewrite settle_settled.
  - now rewrite settle_settled.
Qed.

Lemma settled_is_final (events : list ProcessEvent) : forall st,
  promise st <> Pending ->
  promise (fold_left (step JSON_parse) events st) = promise st.
Proof.
  induction events as [| ev events IH]; intros st Hs; cbn [fold_left];
    [reflexivity |].
  rewrite IH; rewrite step_keeps_settled; auto.
Qed.

(** Only a clean exit lets a handler remove the audio file. *)
Lemma step_unlinks_on_clean_exit (st : State) (ev : ProcessEvent) :
  exitedCleanly ev = false ->
  effects (step JSON_parse st ev) = effects st.
Proof.
  intros Hev.
  destruct ev as [chunk | chunk | exitCode | msg | ms]; cbn [step effects];
    try reflexivity.
  - unfold onClose.
    destruct exitCode as [[| p | p] |]; try discriminate Hev;
      now rewrite settle_effects.
  - now rewrite settle_effects.
Qed.

Lemma run_keeps_effects (events : list ProcessEvent) : forall st,
  forallb (fun ev => negb (exitedCleanly ev)) events = true ->
  effects (fold_left (step JSON_parse) events st) = effects st.
Proof.
  induction events as [| ev events IH]; intros st Hall; cbn [fold_left];
    [reflexivity |].
  cbn [forallb] in Hall. apply andb_true_iff in Hall. destruct Hall as [Hev Hrest].
  rewrite (IH _ Hrest). apply step_unlinks_on_clean_exit.
  now apply negb_true_iff.
Qed.

(** The state in which a ready call meets the first terminal event. *)
Lemma ready_run_until (env : FsEnv) (pre rest : list ProcessEvent) :
  pythonExists env = true -> audioExists env = true ->
  stillRunning pre = true ->
  transcribeWithWhisper JSON_parse env (pre ++ rest)
  = fold_left (step JSON_parse) rest
      {| outputData := stdoutOf pre; errorData := stderrOf pre;
         promise := Pending; effects := [Spawn] |}.
Proof.
  intros Hpy Haudio Hrun.
  unfold transcribeWithWhisper, start. rewrite Hpy, Haudio.
  cbn [negb spawned effects]. rewrite fold_left_app.
  now rewrite (running_accumulates pre _ Hrun).
Qed.

End WhisperMore.

Section WhisperExtras.
Import Js Whisper WhisperStreams Samples.

(** When the child process ends with a non-zero exit code, or is ended
    by a signal, the call is rejected with the message
    ["Whisper process failed: "] followed by everything the process
    wrote to stderr, in order; later events do not change that. *)
Theorem failed_exit_reports_stderr
    (JSON_parse : string -> string + WhisperOutput) (env : FsEnv)
    (pre post : list ProcessEvent) (exitCode : option Z) :
  pythonExists env = true -> audioExists env = true ->
  stillRunning pre = true ->
  exitCode <> Some 0%Z ->
  promise (transcribeWithWhisper JSON_parse env (pre ++ Close exitCode :: post))
  = Rejected (Error ("Whisper process failed: " ++ stderrOf pre)).
Proof.
  intros Hpy Haudio Hrun Hcode.
  rewrite (ready_run_until JSON_parse env pre _ Hpy Haudio Hrun).
  cbn [fold_left step]. rewrite settled_is_final.
  - destruct exitCode as [[| p | p] |]; try congruence; reflexivity.
  - destruct exitCode as [[| p | p] |]; try congruence; discriminate.
Qed.

Lemma failed_exit_reports_stderr_witness :
  promise (transcribeWithWhisper rejectingParse readyEnv
             ([StderrData "Traceback: "; StdoutData "Loading"; StderrData "no module"]
              ++ Close (Some 1%Z) :: [StderrData "late"]))
  = Rejected (Error ("Whisper process failed: "
                     ++ stderrOf [StderrData "Traceback: "; StdoutData "Loading";
                                  StderrData "no module"])).
Proof.
  apply (failed_exit_reports_stderr rejectingParse readyEnv
           [StderrData "Traceback: "; StdoutData "Loading"; StderrData "no module"]
           [StderrData "late"] (Some 1%Z)).
  - reflexivity.
  - reflexivity.
  - reflexivity.
  - discriminate.
Defined.

(** Once the call is resolved or rejected, no later event changes its
    outcome: the first terminal event decides. *)
Theorem first_outcome_is_final
    (JSON_parse : string -> string + WhisperOutput) (env : FsEnv)
    (pre post : list ProcessEvent) :
  promise (transcribeWithWhisper JSON_parse env pre) <> Pending ->
  promise (transcribeWithWhisper JSON_parse env (pre ++ post))
  = promise (transcribeWithWhisper JSON_parse env pre).
Proof.
  unfold transcribeWithWhisper.
  destruct (spawned (start env)); [| reflexivity].
  intros Hs. rewrite fold_left_app. now apply settled_is_final.
Qed.

Lemma first_outcome_is_final_witness :
  promise (transcribeWithWhisper rejectingParse readyEnv
             ([ProcessError "spawn ENOENT"] ++ [Close (Some 0%Z)]))
  = promise (transcribeWithWhisper rejectingParse readyEnv
               [ProcessError "spawn ENOENT"]).
Proof.
  apply (first_outcome_is_final rejectingParse readyEnv
           [ProcessError "spawn ENOENT"] [Close (Some 0%Z)]).
  discriminate.
Defined.

(** The function removes the audio file only in the handler of a clean
    exit: a run without a ['close'] event of exit code 0 never unlinks
    it, so after a failed or hung process the file is still there. *)
Theorem audio_file_kept_without_clean_exit
    (JSON_parse : string -> string + WhisperOutput) (env : FsEnv)
    (events : list ProcessEvent) :
  forallb (fun ev => negb (exitedCleanly ev)) events = true ->
  existsb isUnlink (effects (transcribeWithWhisper JSON_parse env events)) = false.
Proof.
  intros Hall. unfold transcribeWithWhisper.
  destruct (spawned (start env)) eqn:Hsp.
  - rewrite (run_keeps_effects JSON_parse events _ Hall).
    unfold start. destruct (negb (pythonExists env)); [reflexivity |].
    destruct (negb (audioExists env)); reflexivity.
  - unfold start. destruct (negb (pythonExists env)); [reflexivity |].
    destruct (negb (audioExists env)); reflexivity.
Qed.

Lemma audio_file_kept_without_clean_exit_witness :
  existsb isUnlink
    (effects (transcribeWithWhisper rejectingParse readyEnv
                [StderrData "boom"; Close (Some 1%Z)])) = false.
Proof.
  apply (audio_file_kept_without_clean_exit rejectingParse readyEnv
           [StderrData "boom"; Close (Some 1%Z)]).
  reflexivity.
Defined.

(** A clean exit whose accumulated stdout parses to an object without
    [error] and with [segments]: the audio file is removed and the call
    resolves with the text and one word entry per segment, in order,
    each with the segment's text and times. *)
Theorem clean_exit_resolves
    (JSON_parse : string -> string + WhisperOutput) (env : FsEnv)
    (pre : list ProcessEvent) (result : WhisperOutput)
    (segments : list WhisperSegment) :
  pythonExists env = true -> audioExists env = true ->
  stillRunning pre = true ->
  JSON_parse (stdoutOf pre) = inr result ->
  truthy_str (out_error result) = None ->
  out_segments result = Some segments ->
  promise (transcribeWithWhisper JSON_parse env (pre ++ [Close (Some 0%Z)]))
  = Resolved {| t_text := out_text result; words := map toWord segments |}
  /\ effects (transcribeWithWhisper JSON_parse env (pre ++ [Close (Some 0%Z)]))
     = [Spawn; UnlinkAudio].
Proof.
  intros Hpy Haudio Hrun Hparse Herr Hsegs.
  rewrite (ready_run_until JSON_parse env pre _ Hpy Haudio Hrun).
  cbn [fold_left step onClose outputData]. rewrite Hparse, Herr, Hsegs.
  split; reflexivity.
Qed.

Lemma clean_exit_resolves_witness :
  promise (transcribeWithWhisper (parseOnly "{}" helloOutput) readyEnv
             (helloRun ++ [Close (Some 0%Z)]))
  = Resolved {| t_text := " Hello there.";
                words := [ {| word := " Hello there."; word_start := 0;
                              word_end := 2 |} ] |}
  /\ effects (transcribeWithWhisper (parseOnly "{}" helloOutput) readyEnv
                (helloRun ++ [Close (Some 0%Z)]))
     = [Spawn; UnlinkAudio].
Proof.
  apply (clean_exit_resolves (parseOnly "{}" helloOutput) readyEnv helloRun
           helloOutput
           [ {| ws_text := " Hello there."; ws_start := 0; ws_end := 2 |} ]);
    reflexivity.
Defined.

(** A clean exit whose output parses but has no [segments]: the audio
    file is removed first, then mapping the segments throws, and the call
    is rejected as a parse failure although the file is gone. *)
Theorem missing_segments_lose_the_audio_file
    (JSON_parse : string -> string + WhisperOutput) (env : FsEnv)
    (pre : list ProcessEvent) (result : WhisperOutput) :
  pythonExists env = true -> audioExists env = true ->
  stillRunning pre = true ->
  JSON_parse (stdoutOf pre) = inr result ->
  truthy_str (out_error result) = None ->
  out_segments result = None ->
  (exists detail,
      promise (transcribeWithWhisper JSON_parse env (pre ++ [Close (Some 0%Z)]))
      = Rejected (parseFailure detail))
  /\ effects (transcribeWithWhisper JSON_parse env (pre ++ [Close (Some 0%Z)]))
     = [Spawn; UnlinkAudio].
Proof.
  intros Hpy Haudio Hrun Hparse Herr Hsegs.
  rewrite (ready_run_until JSON_parse env pre _ Hpy Haudio Hrun).
  cbn [fold_left step onClose outputData]. rewrite Hparse, Herr, Hsegs.
  split; [eexists |]; reflexivity.
Qed.

Lemma missing_segments_lose_the_audio_file_witness :
  (exists detail,
      promise (transcribeWithWhisper (parseOnly "{}" truncatedOutput) readyEnv
                 (helloRun ++ [Close (Some 0%Z)]))
      = Rejected (parseFailure detail))
  /\ effects (transcribeWithWhisper (parseOnly "{}" truncatedOutput) readyEnv
                (helloRun ++ [Close (Some 0%Z)]))
     = [Spawn; UnlinkAudio].
Proof.
  apply (missing_segments_lose_the_audio_file (parseOnly "{}" truncatedOutput)
           readyEnv helloRun truncatedOutput); reflexivity.
Defined.

(** A clean exit whose output does not parse, or parses to an object
    with an [error]: the call is rejected and the audio file is kept. *)
Theorem unusable_output_is_rejected
    (JSON_parse : string -> string + WhisperOutput) (env : FsEnv)
    (pre : list ProcessEvent) :
  pythonExists env = true -> audioExists env = true ->
  stillRunning pre = true ->
  (exists detail, JSON_parse (stdoutOf pre) = inl detail)
  \/ (exists result err, JSON_parse (stdoutOf pre) = inr result
                         /\ truthy_str (out_error result) = Some err) ->
  (exists e,
      promise (transcribeWithWhisper JSON_parse env (pre ++ [Close (Some 0%Z)]))
      = Rejected e)
  /\ effects (transcribeWithWhisper JSON_parse env (pre ++ [Close (Some 0%Z)]))
     = [Spawn].
Proof.
  intros Hpy Haudio Hrun Hout.
  rewrite (ready_run_until JSON_parse env pre _ Hpy Haudio Hrun).
  cbn [fold_left step onClose outputData].
  destruct Hout as [[detail ->] | [result [err [-> ->]]]];
    (split; [eexists |]; reflexivity).
Qed.

Lemma unusable_output_is_rejected_witness :
  (exists e,
      promise (transcribeWithWhisper rejectingParse readyEnv
                 ([StdoutData "Loading Whisper model..."] ++ [Close (Some 0%Z)]))
      = Rejected e)
  /\ effects (transcribeWithWhisper rejectingParse readyEnv
                ([StdoutData "Loading Whisper model..."] ++ [Close (Some 0%Z)]))
     = [Spawn].
Proof.
  apply (unusable_output_is_rejected rejectingParse readyEnv
           [StdoutData "Loading Whisper model..."]).
  - reflexivity.
  - reflexivity.
  - reflexivity.
  - left. eexists. reflexivity.
Defined.

(** Without the Python environment or without the audio file the call
    is rejected at once and no process is spawned, whatever happens
    later; the missing environment is reported first. *)
Theorem nothing_spawned_without_environment
    (JSON_parse : string -> string + WhisperOutput) (env : FsEnv)
    (events : list ProcessEvent) :
  pythonExists env = false \/ audioExists env = false ->
  effects (transcribeWithWhisper JSON_parse env events) = []
  /\ promise (transcribeWithWhisper JSON_parse env events)
     = Rejected (Error
         (if pythonExists env then "Audio file not found"
          else "Whisper environment not properly configured. Please check installation.")).
Proof.
  intros Hmiss. unfold transcribeWithWhisper, start.
  destruct (pythonExists env); cbn [negb].
  - destruct Hmiss as [H | ->]; [discriminate |]. split; reflexivity.
  - split; reflexivity.
Qed.

Lemma nothing_spawned_without_environment_witness :
  effects (transcribeWithWhisper rejectingParse
             {| pythonExists := false; audioExists := false |}
             [Close (Some 0%Z)]) = []
  /\ promise (transcribeWithWhisper rejectingParse
                {| pythonExists := false; audioExists := false |}
                [Close (Some 0%Z)])
     = Rejected (Error
         "Whisper environment not properly configured. Please check installation.").
Proof.
  apply (nothing_spawned_without_environment rejectingParse
           {| pythonExists := false; audioExists := false |} [Close (Some 0%Z)]).
  left. reflexivity.
Defined.

End WhisperExtras.

(* ================================================================= *)
(** * Further properties of [transcribeWithSarvam] *)

Section SarvamMore.
Import Js Sarvam SarvamChecks Samples.

Local Open Scope Q_scope.

(** The shape of every successful call. *)
Lemma transcribeWithSarvam_success key fetched result :
  transcribeWithSarvam key fetched = inr result ->
  exists resp data t,
    truthy_str key <> None /\ fetched = inr resp /\ ok resp = true
    /\ json resp = inr data /\ transcriptionText data = Some t
    /\ result = {| text := trim t;
                   chunks := processedSegments (rawSegments data) |}.
Proof.
  unfold transcribeWithSarvam, transcriptionText. intros Hrun.
  destruct (truthy_str key) eqn:Hkey; [| discriminate].
  destruct fetched as [e | resp]; [discriminate |].
  destruct (ok resp) eqn:Hok; cbn [negb] in Hrun; [| discriminate].
  destruct (json resp) as [e | data] eqn:Hjson; [discriminate |].
  destruct (or_opt _ _) as [t |] eqn:Ht; [| discriminate].
  injection Hrun as <-.
  exists resp, data, t. repeat split; auto. discriminate.
Qed.

Lemma trimStart_no_leading (s : string) :
  startsWithWhiteSpace (trimStart s) = false.
Proof.
  induction s as [| c s IH]; cbn; [reflexivity |].
  destruct (is_white_space c) eqn:E; [exact IH | cbn; exact E].
Qed.

Lemma trimEnd_keeps_head (s : string) :
  startsWithWhiteSpace s = false -> startsWithWhiteSpace (trimEnd s) = false.
Proof.
  destruct s as [| c s]; cbn; [reflexivity |]. intros Hc.
  destruct (trimEnd s); cbn; [rewrite Hc; cbn |]; exact Hc.
Qed.

Lemma trimEnd_no_trailing (s : string) :
  endsWithWhiteSpace (trimEnd s) = false.
Proof.
  induction s as [| c s IH]; cbn [trimEnd]; [reflexivity |].
  destruct (trimEnd s) as [| c' r] eqn:E.
  - destruct (is_white_space c) eqn:Ec; cbn; [reflexivity | exact Ec].
  - exact IH.
Qed.

Lemma trim_isTrimmed (s : string) : isTrimmed (trim s) = true.
Proof.
  unfold isTrimmed, trim.
  rewrite (trimEnd_keeps_head _ (trimStart_no_leading s)), trimEnd_no_trailing.
  reflexivity.
Qed.

End SarvamMore.

Section SarvamExtras.
Import Js Sarvam SarvamChecks Samples.

Local Open Scope Q_scope.

(** The text of a successful answer and the text of each of its chunks
    have no white space at either end. *)
Theorem sarvam_texts_are_trimmed (key : option string)
    (fetched : JsError + Response) (result : TranscriptionResult) :
  transcribeWithSarvam key fetched = inr result ->
  isTrimmed (text result) = true
  /\ forallb (fun c => isTrimmed (chunk_text c)) (chunks result) = true.
Proof.
  intros Hrun.
  destruct (transcribeWithSarvam_success key fetched result Hrun)
    as [resp [data [t [_ [_ [_ [_ [_ ->]]]]]]]].
  cbn [text chunks]. split; [apply trim_isTrimmed |].
  apply forallb_forall. intros c Hc.
  unfold processedSegments in Hc. apply in_map_iff in Hc.
  destruct Hc as [segment [<- _]]. apply trim_isTrimmed.
Qed.

Lemma sarvam_texts_are_trimmed_witness :
  isTrimmed (text {| text := "a b"; chunks := [mkChunk "a" 1 2; mkChunk "b" 2 3] |})
  = true
  /\ forallb (fun c => isTrimmed (chunk_text c))
       (chunks {| text := "a b"; chunks := [mkChunk "a" 1 2; mkChunk "b" 2 3] |})
     = true.
Proof.
  apply (sarvam_texts_are_trimmed (Some "key") (inr orderedAnswer)).
  reflexivity.
Defined.



Lemma explicit_chunk_times (segment : RawSegment) :
  hasExplicitTimes segment = true ->
  seg_start segment = Some (chunk_start (processSegment segment))
  /\ seg_end segment = Some (chunk_end (processSegment segment)).
Proof.
  unfold hasExplicitTimes, processSegment. cbn [chunk_start chunk_end].
  destruct (seg_start segment) as [s |]; cbn; [| discriminate].
  destruct (Qeq_bool s 0); [discriminate |].
  destruct (seg_end segment) as [e |]; cbn; [| discriminate].
  destruct (Qeq_bool e 0); [discriminate |].
  intros _. split; reflexivity.
Qed.

(** When every raw segment carries a non-zero [start] and a non-zero
    [end], the chunk list is non-overlapping exactly when the raw
    segments are: the function neither repairs nor breaks the order it
    is given. *)
Theorem explicit_times_keep_their_order (segments : list RawSegment) :
  forallb hasExplicitTimes segments = true ->
  nonOverlapping (processedSegments segments) = rawNonOverlapping segments.
Proof.
  induction segments as [| s rest IH]; intros Hall; [reflexivity |].
  cbn [forallb] in Hall. apply andb_true_iff in Hall. destruct Hall as [Hs Hrest].
  destruct rest as [| s' rest']; [reflexivity |].
  specialize (IH Hrest).
  cbn [forallb] in Hrest. apply andb_true_iff in Hrest. destruct Hrest as [Hs' _].
  destruct (explicit_chunk_times s Hs) as [_ He].
  destruct (explicit_chunk_times s' Hs') as [Hb _].
  change (nonOverlapping (processedSegments (s :: s' :: rest')))
    with (Qle_bool (chunk_end (processSegment s)) (chunk_start (processSegment s'))
          && nonOverlapping (processedSegments (s' :: rest')))%bool.
  change (rawNonOverlapping (s :: s' :: rest'))
    with (match seg_end s, seg_start s' with
          | Some e, Some b => (Qle_bool e b && rawNonOverlapping (s' :: rest'))%bool
          | _, _ => false
          end).
  rewrite He, Hb, IH. reflexivity.
Qed.

Lemma explicit_times_keep_their_order_witness :
  nonOverlapping (processedSegments [explicitSegment "a" 1 5; explicitSegment "b" 3 6])
  = rawNonOverlapping [explicitSegment "a" 1 5; explicitSegment "b" 3 6].
Proof.
  apply (explicit_times_keep_their_order
           [explicitSegment "a" 1 5; explicitSegment "b" 3 6]).
  reflexivity.
Defined.

End SarvamExtras.

(* ================================================================= *)
(** * Further properties of [convertToFloat32Array] *)

Section NormalizerMore.
Import Js SignalNormalizer NormalizerChecks.

Local Open Scope Q_scope.

Lemma nth_error_map_seq {A : Type} (f : nat -> A) (n i : nat) :
  (i < n)%nat -> nth_error (map f (seq 0 n)) i = Some (f i).
Proof.
  intros Hi. apply map_nth_error.
  rewrite nth_error_nth' with (d := 0%nat) by (now rewrite length_seq).
  now rewrite seq_nth.
Qed.

(** A sample of the resampled buffer, read by its index. *)
Lemma resampledData_nth_error (rate : positive) (normalized : list jsnum) (i : nat) :
  (i < Z.to_nat (resampledLength (length normalized) rate))%nat ->
  nth_error (resampledData rate normalized) i
  = nth_error normalized (Z.to_nat (originalIndex i rate)).
Proof.
  intros Hi. unfold resampledData.
  rewrite (nth_error_map_seq _ _ _ Hi).
  symmetry. apply nth_error_nth'.
  now apply originalIndex_in_range.
Qed.

Lemma resampledData_length (rate : positive) (normalized : list jsnum) :
  length (resampledData rate normalized)
  = Z.to_nat (resampledLength (length normalized) rate).
Proof. unfold resampledData. now rewrite length_map, length_seq. Qed.

Lemma normalizedData_length (raw : list Q) :
  length (normalizedData raw) = length raw.
Proof. unfold normalizedData. apply length_map. Qed.

Lemma convert_resampled (buf : AudioBuffer) :
  sampleRate buf <> targetRate ->
  convertToFloat32Array (inr buf)
  = inr (resampledData (sampleRate buf) (normalizedData (channelData0 buf))).
Proof.
  intros Hne. unfold convertToFloat32Array.
  apply Pos.eqb_neq in Hne. now rewrite Hne.
Qed.

(** Source rates that are a multiple of the target rate. *)
Lemma resampledLength_multiple (len : nat) (k : positive) :
  Z.to_nat (resampledLength len (targetRate * k)) = (len / Pos.to_nat k)%nat.
Proof.
  rewrite resampledLength_div. unfold targetRate.
  rewrite Pos2Z.inj_mul, (Z.mul_comm (Z.of_nat len)).
  rewrite Z.div_mul_cancel_l by lia.
  rewrite <- (positive_nat_Z k), <- Nat2Z.inj_div. apply Nat2Z.id.
Qed.

Lemma originalIndex_multiple (i : nat) (k : positive) :
  Z.to_nat (originalIndex i (targetRate * k)) = (i * Pos.to_nat k)%nat.
Proof.
  unfold originalIndex, resampleRatio.
  assert (Heq : inject_Z (Z.of_nat i)
                / (inject_Z (Z.pos targetRate) / inject_Z (Z.pos (targetRate * k)))
                == inject_Z (Z.of_nat i * Z.pos k)).
  { rewrite Pos2Z.inj_mul, !inject_Z_mult. field.
    split; intros H; discriminate H. }
  rewrite (Qfloor_comp _ _ Heq), Qfloor_Z. lia.
Qed.

(** Source rates that divide the target rate. *)
Lemma resampledLength_divisor (len : nat) (rate k : positive) :
  targetRate = (rate * k)%positive ->
  Z.to_nat (resampledLength len rate) = (len * Pos.to_nat k)%nat.
Proof.
  intros Hk. rewrite resampledLength_div.
  change 16000%Z with (Z.pos targetRate). rewrite Hk, Pos2Z.inj_mul.
  rewrite (Z.mul_comm (Z.pos rate)), Z.mul_assoc, Z.div_mul by lia. lia.
Qed.

Lemma originalIndex_divisor (i : nat) (rate k : positive) :
  targetRate = (rate * k)%positive ->
  Z.to_nat (originalIndex i rate) = (i / Pos.to_nat k)%nat.
Proof.
  intros Hk. unfold originalIndex, resampleRatio. rewrite Hk.
  assert (Heq : inject_Z (Z.of_nat i)
                / (inject_Z (Z.pos (rate * k)) / inject_Z (Z.pos rate))
                == inject_Z (Z.of_nat i) / inject_Z (Z.pos k)).
  { rewrite Pos2Z.inj_mul, !inject_Z_mult. field.
    repeat split; intros H; discriminate H. }
  rewrite (Qfloor_comp _ _ Heq), <- Zdiv_Qdiv.
  rewrite <- (positive_nat_Z k), <- Nat2Z.inj_div. apply Nat2Z.id.
Qed.

End NormalizerMore.

Section NormalizerExtras.
Import Js SignalNormalizer NormalizerChecks.

Local Open Scope Q_scope.

(** At the target rate of 16000 Hz nothing is resampled: the converted
    buffer has the length of the input, and its sample at each index is
    the input sample at that index divided by the peak (by 1 for
    silence). *)
Theorem target_rate_keeps_every_sample (buf : AudioBuffer) :
  sampleRate buf = targetRate ->
  exists out,
    convertToFloat32Array (inr buf) = inr out
    /\ length out = length (channelData0 buf)
    /\ forall i x, nth_error (channelData0 buf) i = Some x ->
         nth_error out i = Some (Fin (x / orOne (maxAbs (channelData0 buf)))).
Proof.
  intros Hrate.
  exists (normalizedData (channelData0 buf)). split; [| split].
  - unfold convertToFloat32Array. apply Pos.eqb_eq in Hrate. now rewrite Hrate.
  - apply normalizedData_length.
  - intros i x Hx. rewrite normalizedData_finite. unfold scaledSamples.
    apply (map_nth_error Fin).
    now apply (map_nth_error
                 (fun sample => sample / orOne (maxAbs (channelData0 buf)))).
Qed.

Lemma target_rate_keeps_every_sample_witness :
  exists out,
    convertToFloat32Array (inr (ramp 16000)) = inr out
    /\ length out = length (channelData0 (ramp 16000))
    /\ forall i x, nth_error (channelData0 (ramp 16000)) i = Some x ->
         nth_error out i
         = Some (Fin (x / orOne (maxAbs (channelData0 (ramp 16000))))).
Proof.
  apply (target_rate_keeps_every_sample (ramp 16000)). reflexivity.
Defined.

(** A source rate of [k] times 16000 Hz ([k > 1]) is decimated: the
    converted buffer has [floor(length / k)] samples, and its sample at
    index [i] is the normalized sample at index [k * i]; the samples in
    between are dropped. *)
Theorem multiple_rate_is_decimated (buf : AudioBuffer) (k : positive) :
  sampleRate buf = (targetRate * k)%positive ->
  k <> 1%positive ->
  exists out,
    convertToFloat32Array (inr buf) = inr out
    /\ length out = (length (channelData0 buf) / Pos.to_nat k)%nat
    /\ forall i, (i < length out)%nat ->
         nth_error out i
         = nth_error (normalizedData (channelData0 buf)) (i * Pos.to_nat k).
Proof.
  intros Hrate Hk.
  assert (Hne : sampleRate buf <> targetRate).
  { rewrite Hrate. unfold targetRate. lia. }
  exists (resampledData (sampleRate buf) (normalizedData (channelData0 buf))).
  assert (Hlen : length (resampledData (sampleRate buf)
                           (normalizedData (channelData0 buf)))
                 = (length (channelData0 buf) / Pos.to_nat k)%nat).
  { rewrite resampledData_length, normalizedData_length, Hrate.
    apply resampledLength_multiple. }
  split; [now apply convert_resampled | split; [exact Hlen |]].
  intros i Hi. rewrite resampledData_length in Hi.
  rewrite (resampledData_nth_error _ _ _ Hi), Hrate.
  now rewrite originalIndex_multiple.
Qed.

Lemma multiple_rate_is_decimated_witness :
  exists out,
    convertToFloat32Array (inr (ramp 48000)) = inr out
    /\ length out = (length (channelData0 (ramp 48000)) / Pos.to_nat 3)%nat
    /\ forall i, (i < length out)%nat ->
         nth_error out i
         = nth_error (normalizedData (channelData0 (ramp 48000))) (i * Pos.to_nat 3).
Proof.
  apply (multiple_rate_is_decimated (ramp 48000) 3).
  - reflexivity.
  - discriminate.
Defined.

(** A source rate that divides 16000 Hz, [16000 = k * rate] with
    [k > 1], is upsampled by repetition: the converted buffer has
    [k * length] samples, and its sample at index [i] is the normalized
    sample at index [floor(i / k)]. *)
Theorem divisor_rate_is_repeated (buf : AudioBuffer) (k : positive) :
  targetRate = (sampleRate buf * k)%positive ->
  k <> 1%positive ->
  exists out,
    convertToFloat32Array (inr buf) = inr out
    /\ length out = (length (channelData0 buf) * Pos.to_nat k)%nat
    /\ forall i, (i < length out)%nat ->
         nth_error out i
         = nth_error (normalizedData (channelData0 buf)) (i / Pos.to_nat k).
Proof.
  intros Hrate Hk.
  assert (Hne : sampleRate buf <> targetRate).
  { intros Heq. rewrite Heq in Hrate. unfold targetRate in Hrate. lia. }
  exists (resampledData (sampleRate buf) (normalizedData (channelData0 buf))).
  assert (Hlen : length (resampledData (sampleRate buf)
                           (normalizedData (channelData0 buf)))
                 = (length (channelData0 buf) * Pos.to_nat k)%nat).
  { rewrite resampledData_length, normalizedData_length.
    now apply resampledLength_divisor. }
  split; [now apply convert_resampled | split; [exact Hlen |]].
  intros i Hi. rewrite resampledData_length in Hi.
  rewrite (resampledData_nth_error _ _ _ Hi).
  now rewrite (originalIndex_divisor i _ k Hrate).
Qed.

Lemma divisor_rate_is_repeated_witness :
  exists out,
    convertToFloat32Array (inr (ramp 8000)) = inr out
    /\ length out = (length (channelData0 (ramp 8000)) * Pos.to_nat 2)%nat
    /\ forall i, (i < length out)%nat ->
         nth_error out i
         = nth_error (normalizedData (channelData0 (ramp 8000))) (i / Pos.to_nat 2).
Proof.
  apply (divisor_rate_is_repeated (ramp 8000) 2).
  - reflexivity.
  - discriminate.
Defined.

End NormalizerExtras.

Section GainFacts.
Import Js SignalNormalizer NormalizerChecks.

Local Open Scope Q_scope.

Lemma Qgt_bool_comp (a a' b b' : Q) :
  a == a' -> b == b' -> Qgt_bool a b = Qgt_bool a' b'.
Proof.
  intros Ha Hb. unfold Qgt_bool. f_equal.
  apply eq_iff_eq_true. rewrite !Qle_bool_iff, Ha, Hb. reflexivity.
Qed.

Lemma Qgt_bool_scale (c a b : Q) :
  0 < c -> Qgt_bool (c * a) (c * b) = Qgt_bool a b.
Proof.
  intros Hc. unfold Qgt_bool. f_equal.
  apply eq_iff_eq_true. rewrite !Qle_bool_iff. now apply Qmult_le_l.
Qed.

Lemma maxStep_scale (c a a' x : Q) :
  0 < c -> a' == c * a -> maxStep a' (c * x) == c * maxStep a x.
Proof.
  intros Hc Ha. unfold maxStep. cbv zeta.
  assert (Habs : Qabs (c * x) == c * Qabs x).
  { rewrite Qabs_Qmult, (Qabs_pos c) by (now apply Qlt_le_weak). reflexivity. }
  rewrite (Qgt_bool_comp _ _ _ _ Habs Ha), (Qgt_bool_scale c _ _ Hc).
  destruct (Qgt_bool (Qabs x) a); assumption.
Qed.

Lemma fold_maxStep_scale (c : Q) (l : list Q) : forall a a',
  0 < c -> a' == c * a ->
  fold_left maxStep (map (Qmult c) l) a' == c * fold_left maxStep l a.
Proof.
  induction l as [| x l IH]; intros a a' Hc Ha; cbn [map fold_left]; [exact Ha |].
  apply IH; [exact Hc |]. now apply maxStep_scale.
Qed.

(** A gain multiplies the peak. *)
Lemma maxAbs_scale (c : Q) (raw : list Q) :
  0 < c -> maxAbs (map (Qmult c) raw) == c * maxAbs raw.
Proof.
  intros Hc. apply fold_maxStep_scale; [exact Hc |].
  now rewrite Qmult_0_r.
Qed.

(** The division by the peak takes the gain out again. *)
Lemma scaled_gain (c : Q) (raw : list Q) (x : Q) :
  0 < c -> In x raw ->
  (c * x) / orOne (maxAbs (map (Qmult c) raw)) == x / orOne (maxAbs raw).
Proof.
  intros Hc Hx.
  pose proof (maxAbs_scale c raw Hc) as Hm.
  assert (Hc0 : ~ c == 0).
  { intros H. rewrite H in Hc. discriminate Hc. }
  unfold orOne. destruct (Qeq_bool (maxAbs raw) 0) eqn:E.
  - apply Qeq_bool_eq in E.
    assert (E' : Qeq_bool (maxAbs (map (Qmult c) raw)) 0 = true).
    { apply Qeq_bool_iff. rewrite Hm, E. apply Qmult_0_r. }
    rewrite E'.
    assert (Hx0 : x == 0).
    { assert (Hax : Qabs x <= 0).
      { rewrite <- E. apply (fold_maxStep_ge_sample raw 0 x Hx). }
      apply Qabs_Qle_condition in Hax. destruct Hax as [Hlo Hhi].
      apply Qle_antisym; assumption. }
    rewrite Hx0, Qmult_0_r. reflexivity.
  - apply Qeq_bool_neq in E.
    assert (E' : Qeq_bool (maxAbs (map (Qmult c) raw)) 0 = false).
    { destruct (Qeq_bool (maxAbs (map (Qmult c) raw)) 0) eqn:E'; [| reflexivity].
      apply Qeq_bool_eq in E'. rewrite Hm in E'.
      apply Qmult_integral in E'. destruct E'; contradiction. }
    rewrite E', Hm. field. split; assumption.
Qed.

Lemma Forall2_map_in {A B C : Type} (R : B -> C -> Prop)
    (f : A -> B) (g : A -> C) (l : list A) :
  (forall x, In x l -> R (f x) (g x)) -> Forall2 R (map f l) (map g l).
Proof.
  induction l as [| x l IH]; intros H; cbn; constructor.
  - apply H. now left.
  - apply IH. intros y Hy. apply H. now right.
Qed.

Lemma Forall2_nth {A B : Type} (R : A -> B -> Prop) (l1 : list A) (l2 : list B)
    (d1 : A) (d2 : B) :
  Forall2 R l1 l2 -> R d1 d2 -> forall n, R (nth n l1 d1) (nth n l2 d2).
Proof.
  intros H Hd. induction H as [| x y l1 l2 Hxy H IH]; intros [| n]; cbn; auto.
Qed.

Lemma normalizedData_gain (c : Q) (raw : list Q) :
  0 < c ->
  Forall2 sameSample (normalizedData (map (Qmult c) raw)) (normalizedData raw).
Proof.
  intros Hc. rewrite !normalizedData_finite. unfold scaledSamples.
  rewrite !map_map. apply Forall2_map_in.
  intros x Hx. cbn. now apply scaled_gain.
Qed.

Lemma resampledData_same (rate : positive) (l1 l2 : list jsnum) :
  Forall2 sameSample l1 l2 ->
  Forall2 sameSample (resampledData rate l1) (resampledData rate l2).
Proof.
  intros H. unfold resampledData.
  rewrite (Forall2_length H). apply Forall2_map_in.
  intros i _. apply Forall2_nth; [exact H | exact I].
Qed.

End GainFacts.

(** The volume of the recording does not matter: a decoded input and the
    same input with every sample multiplied by a positive gain are
    converted to the same buffer, sample by sample, at every source
    rate. *)
Theorem volume_does_not_matter (gain : Q) (buf : SignalNormalizer.AudioBuffer) :
  (0 < gain)%Q ->
  exists louder out,
    SignalNormalizer.convertToFloat32Array (inr (NormalizerChecks.amplify gain buf))
    = inr louder
    /\ SignalNormalizer.convertToFloat32Array (inr buf) = inr out
    /\ Forall2 NormalizerChecks.sameSample louder out.
Proof.
  intros Hc. unfold SignalNormalizer.convertToFloat32Array, NormalizerChecks.amplify.
  cbn [SignalNormalizer.sampleRate SignalNormalizer.channelData0].
  pose proof (normalizedData_gain gain (SignalNormalizer.channelData0 buf) Hc) as Hn.
  destruct (negb (Pos.eqb (SignalNormalizer.sampleRate buf) SignalNormalizer.targetRate)).
  - eexists _, _. split; [reflexivity | split; [reflexivity |]].
    now apply resampledData_same.
  - eexists _, _. split; [reflexivity | split; [reflexivity | exact Hn]].
Qed.

Lemma volume_does_not_matter_witness :
  exists louder out,
    SignalNormalizer.convertToFloat32Array
      (inr (NormalizerChecks.amplify (3 # 1) (NormalizerChecks.ramp 48000)))
    = inr louder
    /\ SignalNormalizer.convertToFloat32Array (inr (NormalizerChecks.ramp 48000))
       = inr out
    /\ Forall2 NormalizerChecks.sameSample louder out.
Proof.
  apply (volume_does_not_matter (3 # 1) (NormalizerChecks.ramp 48000)).
  reflexivity.
Defined.

(* ================================================================= *)
(** * Properties of [generateInterviewQuestions] *)

Section QuestionFacts.
Import Js QuestionGenerator QuestionChecks.

Lemma validNumQuestions_range (n : Z) : (1 <= validNumQuestions n <= 10)%Z.
Proof.
  unfold validNumQuestions.
  destruct (Z.eqb_spec n 0), (Z.ltb_spec n 1), (Z.ltb_spec 10 n); cbn; lia.
Qed.

Lemma createDefaultQuestions_length (topic role : string) (n : Z) :
  length (createDefaultQuestions topic role n) = Z.to_nat n.
Proof. unfold createDefaultQuestions. now rewrite length_map, length_seq. Qed.

Lemma finalQuestions_length (topic role : string) (n : Z)
    (generatedQuestions : list RawQuestion) :
  (0 <= n)%Z ->
  length (finalQuestions topic role n generatedQuestions) = Z.to_nat n.
Proof.
  intros Hn. unfold finalQuestions. rewrite length_map.
  destruct (Z.leb_spec n (Z.of_nat (length generatedQuestions))).
  - rewrite length_firstn. lia.
  - rewrite length_app, length_map, createDefaultQuestions_length. lia.
Qed.

Lemma defaultAt_filled (topic role : string) (i : nat) :
  isFilledIn (defaultAt topic role i) = true.
Proof.
  unfold defaultAt.
  assert (Hi : (i mod 5 < 5)%nat) by (apply Nat.mod_upper_bound; lia).
  destruct (i mod 5) as [| [| [| [| [| k]]]]]; try reflexivity. lia.
Qed.

Lemma truthy_str_nonempty (o : option string) (s : string) :
  truthy_str o = Some s -> String.eqb s "" = false.
Proof.
  destruct o as [[| c t] |]; cbn; try discriminate.
  intros H. injection H as <-. reflexivity.
Qed.

Lemma complete_filled (topic : string) (q : RawQuestion) :
  isFilledIn (complete topic q) = true.
Proof.
  unfold isFilledIn, complete. cbn [question purpose].
  destruct (truthy_str (raw_question q)) eqn:Eq;
    destruct (truthy_str (raw_purpose q)) eqn:Ep; cbn [or_else];
    rewrite ?(truthy_str_nonempty _ _ Eq), ?(truthy_str_nonempty _ _ Ep);
    reflexivity.
Qed.

Lemma createDefaultQuestions_filled (topic role : string) (n : Z) :
  forallb isFilledIn (createDefaultQuestions topic role n) = true.
Proof.
  apply forallb_forall. intros q Hq.
  unfold createDefaultQuestions in Hq. apply in_map_iff in Hq.
  destruct Hq as [i [<- _]]. apply defaultAt_filled.
Qed.

Lemma finalQuestions_filled (topic role : string) (n : Z)
    (generatedQuestions : list RawQuestion) :
  forallb isFilledIn (finalQuestions topic role n generatedQuestions) = true.
Proof.
  apply forallb_forall. intros q Hq.
  unfold finalQuestions in Hq. apply in_map_iff in Hq.
  destruct Hq as [r [<- _]]. apply complete_filled.
Qed.

Lemma fromFirstBrace_skips (pre rest : string) :
  lacks isOpenBrace pre = true ->
  fromFirstBrace (pre ++ String "{" rest) = Some (String "{" rest).
Proof.
  induction pre as [| c pre IH]; cbn; [reflexivity |].
  intros H. apply andb_true_iff in H. destruct H as [Hc Hpre].
  apply negb_true_iff in Hc. rewrite Hc. now apply IH.
Qed.

Lemma throughLastBrace_none (post : string) :
  lacks isCloseBrace post = true -> throughLastBrace post = None.
Proof.
  induction post as [| c post IH]; cbn; [reflexivity |].
  intros H. apply andb_true_iff in H. destruct H as [Hc Hpost].
  apply negb_true_iff in Hc. now rewrite (IH Hpost), Hc.
Qed.

Lemma throughLastBrace_cuts (s post : string) :
  lacks isCloseBrace post = true ->
  throughLastBrace (s ++ String "}" post) = Some (s ++ "}").
Proof.
  intros Hpost. induction s as [| c s IH]; cbn.
  - now rewrite (throughLastBrace_none post Hpost).
  - now rewrite IH.
Qed.

Lemma validNumQuestions_spec (n : Z) :
  validNumQuestions n
  = if ((1 <=? n) && (n <=? 10))%Z then n else 3%Z.
Proof.
  unfold validNumQuestions.
  destruct (Z.eqb_spec n 0), (Z.ltb_spec n 1), (Z.ltb_spec 10 n),
    (Z.leb_spec 1 n), (Z.leb_spec n 10); cbn; lia.
Qed.

Lemma generateInterviewQuestions_length (key generated : option string)
    (JSON_parse : string -> option ParsedResponse)
    (topic role mode : string) (numQuestions : Z) :
  length (generateInterviewQuestions key generated JSON_parse
            topic role mode numQuestions)
  = Z.to_nat (validNumQuestions numQuestions).
Proof.
  pose proof (validNumQuestions_range numQuestions) as Hr.
  unfold generateInterviewQuestions.
  destruct (truthy_str key); [| apply createDefaultQuestions_length].
  destruct generated as [responseText |]; [| apply createDefaultQuestions_length].
  destruct (JSON_parse (jsonString responseText)) as [parsed |];
    [| apply createDefaultQuestions_length].
  destruct (interview_questions parsed) as [[[| q qs] |] |];
    try apply createDefaultQuestions_length.
  apply finalQuestions_length. lia.
Qed.

End QuestionFacts.

Section QuestionExtras.
Import Js QuestionGenerator QuestionChecks.

(** Whatever the API key, the model's answer and its JSON are,
    [generateInterviewQuestions] returns exactly [numQuestions] opening
    questions when [numQuestions] is an integer from 1 to 10, and
    exactly 3 otherwise: surplus questions of the model are dropped and
    missing ones are made up from the default questions. *)
Theorem question_count_is_exact (key generated : option string)
    (JSON_parse : string -> option ParsedResponse)
    (topic role mode : string) (numQuestions : Z) :
  length (generateInterviewQuestions key generated JSON_parse
            topic role mode numQuestions)
  = Z.to_nat (if ((1 <=? numQuestions) && (numQuestions <=? 10))%Z
              then numQuestions else 3%Z).
Proof.
  rewrite generateInterviewQuestions_length. now rewrite validNumQuestions_spec.
Qed.

(** Every question [generateInterviewQuestions] returns has a non-empty
    question text and a non-empty purpose, even when the model's answer
    leaves them out. *)
Theorem questions_are_filled_in (key generated : option string)
    (JSON_parse : string -> option ParsedResponse)
    (topic role mode : string) (numQuestions : Z) :
  forallb isFilledIn
    (generateInterviewQuestions key generated JSON_parse
       topic role mode numQuestions) = true.
Proof.
  unfold generateInterviewQuestions.
  destruct (truthy_str key); [| apply createDefaultQuestions_filled].
  destruct generated as [responseText |]; [| apply createDefaultQuestions_filled].
  destruct (JSON_parse (jsonString responseText)) as [parsed |];
    [| apply createDefaultQuestions_filled].
  destruct (interview_questions parsed) as [[[| q qs] |] |];
    try apply createDefaultQuestions_filled.
  apply finalQuestions_filled.
Qed.

(** The text handed to [JSON.parse] is the model's answer from its first
    opening brace through its last closing brace: whatever surrounds the
    JSON object, a Markdown fence for instance, is cut away. *)
Theorem json_object_is_cut_out (pre body post : string) :
  lacks isOpenBrace pre = true ->
  lacks isCloseBrace post = true ->
  jsonString (pre ++ String "{" (body ++ String "}" post))
  = String "{" (body ++ "}").
Proof.
  intros Hpre Hpost. unfold jsonString.
  rewrite (fromFirstBrace_skips pre _ Hpre).
  change (String "{" (body ++ String "}" post))
    with (String "{" body ++ String "}" post).
  now rewrite (throughLastBrace_cuts _ post Hpost).
Qed.

Lemma json_object_is_cut_out_witness :
  jsonString ("```json " ++ String "{" ("a: {b: 1}" ++ String "}" " ```"))
  = String "{" ("a: {b: 1}" ++ "}").
Proof.
  apply (json_object_is_cut_out "```json " "a: {b: 1}" " ```"); reflexivity.
Defined.

(** The [numQuestions] of the [/api/generate-questions] route is always
    an integer from 1 to 10, whatever the request body holds, and the
    standard generation called with it returns exactly that many
    questions. *)
Theorem route_question_count (field : BodyField) (key generated : option string)
    (JSON_parse : string -> option ParsedResponse) (topic role mode : string) :
  (1 <= requestedQuestions field <= 10)%Z
  /\ length (generateInterviewQuestions key generated JSON_parse
               topic role mode (requestedQuestions field))
     = Z.to_nat (requestedQuestions field).
Proof.
  assert (Hr : (1 <= requestedQuestions field <= 10)%Z).
  { unfold requestedQuestions.
    destruct (parsedNumQuestions field) as [n |]; [| lia].
    destruct (Z.ltb_spec n 1); [lia |].
    destruct (Z.ltb_spec 10 n); lia. }
  split; [exact Hr |].
  rewrite generateInterviewQuestions_length, validNumQuestions_spec.
  destruct (Z.leb_spec 1 (requestedQuestions field)),
    (Z.leb_spec (requestedQuestions field) 10); cbn; try reflexivity; lia.
Qed.

End QuestionExtras.

(* ================================================================= *)
(** * Properties of [loadModel] and [transcribeLocally] *)

Section LocalModelFacts.
Import Js LocalModel.

(** A load that succeeds leaves the pipeline in the service. *)
Lemma loadModel_loaded (out : JsError + unit) (polls : list Service) :
  forall this model this' effs,
    loadModel out polls this = (Loaded model, this', effs) ->
    transcriber this' = Some model.
Proof.
  induction polls as [| next later IH]; intros this model this' effs;
    cbn [loadModel]; destruct (transcriber this) as [m |] eqn:Et.
  - intros H. injection H as <- <- _. exact Et.
  - destruct (loading this); [discriminate |].
    destruct out; intros H; [discriminate |]. now injection H as <- <- _.
  - intros H. injection H as <- <- _. exact Et.
  - destruct (loading this); [apply IH |].
    destruct out; intros H; [discriminate |]. now injection H as <- <- _.
Qed.

Lemma loadModel_memo (out : JsError + unit) (polls : list Service)
    (this : Service) (model : string) :
  transcriber this = Some model ->
  loadModel out polls this = (Loaded model, this, []).
Proof. intros Ht. destruct polls; cbn [loadModel]; now rewrite Ht. Qed.

(** No failure of a load creates an object URL, and its message is
    fixed. *)
Lemma loadModel_failed (out : JsError + unit) (polls : list Service) :
  forall this e this' effs,
    loadModel out polls this = (LoadFailed e, this', effs) ->
    e = loadError /\ effs = [CreatePipeline baseModel].
Proof.
  induction polls as [| next later IH]; intros this e this' effs;
    cbn [loadModel]; destruct (transcriber this); try discriminate;
    destruct (loading this); try discriminate; try apply IH;
    destruct out; intros H; try discriminate; injection H as <- _ <-; auto.
Qed.

Lemma loadModel_never_revokes (out : JsError + unit) (polls : list Service) :
  forall this, existsb isRevoke (snd (loadModel out polls this)) = false.
Proof.
  induction polls as [| next later IH]; intros this; cbn [loadModel];
    destruct (transcriber this); try reflexivity;
    destruct (loading this); try reflexivity; try apply IH;
    destruct out; reflexivity.
Qed.

Lemma alternative_revokes (B : Browser) :
  existsb isRevoke (snd (alternative B))
  = match fst (alternative B) with Returned _ => true | _ => false end.
Proof.
  unfold alternative.
  destruct (importEnv B); [reflexivity |].
  destruct (tinyPipeline B); [reflexivity |].
  destruct (tinyInference B); reflexivity.
Qed.

(** What the alternative approach throws names its first failing step. *)
Lemma alternative_throws_cause (B : Browser) (e : JsError) :
  fst (alternative B) = Thrown e ->
  exists cause,
    e = wrap cause
    /\ (importEnv B = inl cause
        \/ (importEnv B = inr tt /\ tinyPipeline B = inl cause)
        \/ (importEnv B = inr tt /\ tinyPipeline B = inr tt
            /\ tinyInference B = inl cause)).
Proof.
  unfold alternative.
  destruct (importEnv B) as [c1 | []];
    [intros H; injection H as <-; exists c1; auto |].
  destruct (tinyPipeline B) as [c2 | []];
    [intros H; injection H as <-; exists c2; auto |].
  destruct (tinyInference B) as [c3 | t];
    [intros H; injection H as <-; exists c3; auto 6 |].
  discriminate.
Qed.

(** A waiting call goes on from the first state it finds after the
    states in which the other load is still in flight. *)
Lemma loadModel_skips_busy (out : JsError + unit) (waiting later : list Service)
    (next : Service) :
  forall this,
    forallb (fun s => match transcriber s with None => loading s | Some _ => false end)
            (this :: waiting) = true ->
    loadModel out (waiting ++ next :: later) this = loadModel out later next.
Proof.
  induction waiting as [| w waiting IH]; intros this Hall;
    cbn [forallb] in Hall; apply andb_true_iff in Hall; destruct Hall as [Hthis Hrest];
    cbn [app loadModel]; destruct (transcriber this); try discriminate;
    rewrite Hthis.
  - reflexivity.
  - apply IH. exact Hrest.
Qed.

End LocalModelFacts.

Section LocalModelExtras.
Import Js LocalModel.

(** [loadModel] is memoized: after a call that loaded the model, every
    later call returns the same pipeline at once, without creating a
    pipeline and without changing the service, whatever creating a
    pipeline would do then. *)
Theorem load_is_memoized (out out' : JsError + unit) (polls polls' : list Service)
    (this this' : Service) (model : string) (effs : list Effect) :
  loadModel out polls this = (Loaded model, this', effs) ->
  loadModel out' polls' this' = (Loaded model, this', []).
Proof.
  intros Hload. apply loadModel_memo.
  exact (loadModel_loaded out polls this model this' effs Hload).
Qed.

Lemma load_is_memoized_witness :
  loadModel (inl (Error "Failed to fetch")) []
    {| transcriber := Some baseModel; loading := false |}
  = (Loaded baseModel, {| transcriber := Some baseModel; loading := false |}, []).
Proof.
  apply (load_is_memoized (inr tt) (inl (Error "Failed to fetch")) [] [] fresh
           {| transcriber := Some baseModel; loading := false |}
           baseModel [CreatePipeline baseModel]).
  reflexivity.
Defined.

(** Concurrent loads coalesce: a call that finds no pipeline and
    another load in flight waits, finds the same at some wake-ups, and
    then finds the pipeline the other load has stored; it returns that
    pipeline, creates none itself and leaves the service as it found
    it. *)
Theorem waiting_caller_reuses_the_load (out : JsError + unit)
    (waiting later : list Service) (this done : Service) (model : string) :
  forallb (fun s => match transcriber s with None => loading s | Some _ => false end)
          (this :: waiting) = true ->
  transcriber done = Some model ->
  loadModel out (waiting ++ done :: later) this = (Loaded model, done, []).
Proof.
  intros Hbusy Hdone. rewrite (loadModel_skips_busy out waiting later done this Hbusy).
  now apply loadModel_memo.
Qed.

Lemma waiting_caller_reuses_the_load_witness :
  loadModel (inr tt) ([busy; busy] ++ loaded :: [fresh]) busy
  = (Loaded baseModel, loaded, []).
Proof.
  apply (waiting_caller_reuses_the_load (inr tt) [busy; busy] [fresh] busy loaded
           baseModel); reflexivity.
Defined.

(** Whatever [transcribeLocally] throws is an [Error] whose message is
    ["Local transcription failed: "] followed by the reason of one
    failure: that of the model load, before any object URL is created;
    or, when the first attempt at the audio failed (its own error is
    only logged), that of the first failing step of the alternative
    approach.  The reason is the message of what that step threw, or
    ["Unknown error"] when it threw something that is not an [Error]. *)
Theorem local_errors_name_their_cause (B : Browser) (this this' : Service)
    (e : JsError) (effs : list Effect) :
  transcribeLocally B this = (Thrown e, this', effs) ->
  (e = Error ("Local transcription failed: " ++ message loadError)
   /\ effs = [CreatePipeline baseModel])
  \/ (exists first cause,
        inference B = inl first
        /\ e = Error ("Local transcription failed: " ++ reason cause)
        /\ (importEnv B = inl cause
            \/ (importEnv B = inr tt /\ tinyPipeline B = inl cause)
            \/ (importEnv B = inr tt /\ tinyPipeline B = inr tt
                /\ tinyInference B = inl cause))).
Proof.
  unfold transcribeLocally.
  destruct (loadModel (pipelineOutcome B) (polls B) this)
    as [[[m | le |] st] effs0] eqn:Hload.
  - destruct (negb (canPlayThrough B)); [discriminate |].
    destruct (inference B) as [first | r]; [| discriminate].
    destruct (alternative B) as [outcome more] eqn:Ealt.
    intros H. injection H as -> _ _. right.
    destruct (alternative_throws_cause B e) as [cause [-> Hcause]];
      [now rewrite Ealt |].
    exists first, cause. auto.
  - intros H. injection H as <- _ <-. left.
    destruct (loadModel_failed _ _ _ _ _ _ Hload) as [-> ->]. auto.
  - discriminate.
Qed.

Lemma local_errors_name_their_cause_witness :
  (Error "Local transcription failed: Unknown error"
   = Error ("Local transcription failed: " ++ message loadError)
   /\ [CreatePipeline baseModel; CreateObjectURL; RunModel baseModel;
       CreatePipeline tinyModel] = [CreatePipeline baseModel])
  \/ (exists first cause,
        inference stuck = inl first
        /\ Error "Local transcription failed: Unknown error"
           = Error ("Local transcription failed: " ++ reason cause)
        /\ (importEnv stuck = inl cause
            \/ (importEnv stuck = inr tt /\ tinyPipeline stuck = inl cause)
            \/ (importEnv stuck = inr tt /\ tinyPipeline stuck = inr tt
                /\ tinyInference stuck = inl cause))).
Proof.
  apply (local_errors_name_their_cause stuck fresh
           {| transcriber := Some baseModel; loading := false |}).
  reflexivity.
Defined.

(** The object URL of the audio file is revoked exactly when
    [transcribeLocally] returns a transcript: a call that throws or
    never settles does not revoke it. *)
Theorem url_revoked_only_on_success (B : Browser) (this : Service) :
  existsb isRevoke (snd (transcribeLocally B this))
  = match fst (fst (transcribeLocally B this)) with
    | Returned _ => true
    | _ => false
    end.
Proof.
  unfold transcribeLocally.
  pose proof (loadModel_never_revokes (pipelineOutcome B) (polls B) this) as Hl.
  destruct (loadModel (pipelineOutcome B) (polls B) this) as [[[m | le |] st] effs0];
    cbn [snd fst] in *; try exact Hl.
  destruct (negb (canPlayThrough B)); cbn [snd fst].
  - rewrite existsb_app, Hl. reflexivity.
  - destruct (inference B) as [ie | r]; cbn [snd fst].
    + pose proof (alternative_revokes B) as Ha.
      destruct (alternative B) as [outcome more]; cbn [snd fst] in *.
      rewrite !existsb_app, Hl, Ha. reflexivity.
    + rewrite existsb_app, Hl. reflexivity.
Qed.

End LocalModelExtras.

(** End to end: when a validated file is posted, the API gives no text
    (it throws, or answers without a truthy [text]), the speech model is
    not loaded yet and cannot be loaded, [transcribeAudio] throws
    ["Failed to process audio: Local transcription failed: Unable to load
    speech recognition model. Please try again."] after one call to each
    backend. *)
Theorem unloadable_model_message (B : Orchestrator.Backends) (f : Orchestrator.File)
    (browser : LocalModel.Browser) (this : LocalModel.Service) (cause : Js.JsError) :
  Orchestrator.isSupported f = true ->
  (Orchestrator.file_size f <= Orchestrator.maxSize)%N ->
  (forall d, Orchestrator.axios_post B f = inr (Some d) ->
             Js.truthy_str (Orchestrator.data_text d) = None) ->
  LocalModel.transcriber this = None ->
  LocalModel.loading this = false ->
  LocalModel.pipelineOutcome browser = inl cause ->
  LocalModel.asBackend browser this = Some (Orchestrator.transcribeLocally B f) ->
  Orchestrator.run B f
  = (inl (Js.Error "Failed to process audio: Local transcription failed: Unable to load speech recognition model. Please try again."),
     [Orchestrator.ApiPost f; Orchestrator.LocalTranscription f]).
Proof.
  intros Hs Hle Hapi Ht Hl Hpipe Hback.
  assert (Hlocal : Orchestrator.transcribeLocally B f
                   = inl (LocalModel.wrap (LocalModel.AnError LocalModel.loadError))).
  { unfold LocalModel.asBackend, LocalModel.transcribeLocally in Hback.
    destruct (LocalModel.polls browser); cbn [LocalModel.loadModel] in Hback;
      rewrite Ht, Hl, Hpipe in Hback; cbn in Hback; now injection Hback as <-. }
  rewrite (run_accepted B f Hs Hle). unfold Orchestrator.localOutcome.
  rewrite Hlocal.
  destruct (Orchestrator.axios_post B f) as [e | [d |]] eqn:Hpost; try reflexivity.
  now rewrite (Hapi d eq_refl).
Qed.

Lemma unloadable_model_message_witness :
  Orchestrator.run Fixtures.failingBackends (Samples.wav 1000)
  = (inl (Js.Error "Failed to process audio: Local transcription failed: Unable to load speech recognition model. Please try again."),
     [Orchestrator.ApiPost (Samples.wav 1000);
      Orchestrator.LocalTranscription (Samples.wav 1000)]).
Proof.
  apply (unloadable_model_message Fixtures.failingBackends (Samples.wav 1000)
           LocalModel.offline LocalModel.fresh (Js.Error "Failed to fetch")).
  - reflexivity.
  - vm_compute. discriminate.
  - intros d H. discriminate H.
  - reflexivity.
  - reflexivity.
  - reflexivity.
  - reflexivity.
Defined.

(* ================================================================= *)
(** * Properties of the [/api/transcribe] route *)

Section RouteExtras.
Import Js Whisper TranscribeRoute.

(** Once a file is uploaded the route answers with status 200 whether
    the transcription succeeds or fails.  On success the body has one
    chunk per word entry, in order, with the entry's [start] and [end]
    and no [text]: the entries carry their text under [word], and the
    route reads [text].  On failure the body is only a message. *)
Theorem transcribe_route_reply (path : string) (outcome : Promise) (reply : Reply) :
  transcribeRoute (Some path) outcome = Some reply ->
  status reply = 200%N
  /\ (forall e, outcome = Rejected e ->
        body reply = MessageBody "Failed to transcribe audio. Please try again.")
  /\ (forall result, outcome = Resolved result ->
        body reply
        = TranscriptBody (t_text result)
            (map (fun w => [("start", VNumber (word_start w));
                            ("end", VNumber (word_end w))]) (words result))
        /\ forallb (fun chunk => match get chunk "text" with
                                 | None => true
                                 | Some _ => false
                                 end) (chunksOf (body reply)) = true).
Proof.
  intros Hreply. destruct outcome as [| result | e]; cbn in Hreply;
    try discriminate; injection Hreply as <-; cbn [status body].
  - split; [reflexivity |]. split.
    + intros e He. discriminate He.
    + intros r Hr. injection Hr as <-. split; [reflexivity |].
      cbn [chunksOf]. apply forallb_forall. intros chunk Hin.
      apply in_map_iff in Hin. destruct Hin as [w [<- _]]. reflexivity.
  - split; [reflexivity |]. split.
    + intros e' _. reflexivity.
    + intros r Hr. discriminate Hr.
Qed.

Lemma transcribe_route_reply_witness :
  status {| status := 200;
            body := TranscriptBody "hi"
                      [[("start", VNumber 0); ("end", VNumber 1)]] |} = 200%N
  /\ (forall e, Resolved {| t_text := "hi";
                            words := [ {| word := "hi"; word_start := 0;
                                          word_end := 1 |} ] |} = Rejected e ->
        body {| status := 200;
                body := TranscriptBody "hi"
                          [[("start", VNumber 0); ("end", VNumber 1)]] |}
        = MessageBody "Failed to transcribe audio. Please try again.")
  /\ (forall result,
        Resolved {| t_text := "hi";
                    words := [ {| word := "hi"; word_start := 0;
                                  word_end := 1 |} ] |} = Resolved result ->
        body {| status := 200;
                body := TranscriptBody "hi"
                          [[("start", VNumber 0); ("end", VNumber 1)]] |}
        = TranscriptBody (t_text result)
            (map (fun w => [("start", VNumber (word_start w));
                            ("end", VNumber (word_end w))]) (words result))
        /\ forallb (fun chunk => match get chunk "text" with
                                 | None => true
                                 | Some _ => false
                                 end)
             (chunksOf (body {| status := 200;
                                body := TranscriptBody "hi"
                                          [[("start", VNumber 0);
                                            ("end", VNumber 1)]] |})) = true).
Proof.
  apply (transcribe_route_reply "uploads/abc"
           (Resolved {| t_text := "hi";
                        words := [ {| word := "hi"; word_start := 0;
                                      word_end := 1 |} ] |})).
  reflexivity.
Defined.

End RouteExtras.

(* ================================================================= *)
(** * Properties of [analyzeTranscription] *)

Section AnalysisExtras.
Import Js AnalysisClient.

Lemma blank_test (text : string) :
  (String.eqb text "" || String.eqb (trim text) "")%bool
  = String.eqb (trim text) "".
Proof.
  destruct (String.eqb_spec text "") as [-> | _]; reflexivity.
Qed.

(** For an empty text, or one of ASCII white space only,
    [analyzeTranscription] posts nothing and throws
    ["No transcription text provided"]; an ASCII text with a character
    that is not white space is posted once, exactly as given. *)
Theorem blank_text_is_never_posted (fetch : string -> JsError + Response)
    (text : string) :
  (trim text = "" ->
     analyzeTranscription fetch text = (inl noTextError, []))
  /\ (isAscii text = true -> trim text <> "" ->
      snd (analyzeTranscription fetch text) = [text]).
Proof.
  unfold analyzeTranscription. rewrite blank_test.
  destruct (String.eqb_spec (trim text) "") as [Hb | Hnb]; split;
    try (intros _ H); try (intros H); try reflexivity; contradiction.
Qed.

Lemma blank_text_is_never_posted_witness :
  analyzeTranscription
    (answering {| transcription := None; full_transcript := None; others := [] |})
    "  " = (inl noTextError, [])
  /\ snd (analyzeTranscription
            (answering {| transcription := None; full_transcript := None;
                          others := [] |}) " hello ") = [" hello "].
Proof.
  split.
  - apply (proj1 (blank_text_is_never_posted _ "  ")). reflexivity.
  - apply (proj2 (blank_text_is_never_posted _ " hello ")).
    + reflexivity.
    + discriminate.
Defined.

(** A result of [analyzeTranscription] never carries a non-empty
    [full_transcript]: when the server sends one, it becomes the
    [transcription] and is removed; otherwise the server's object is
    returned as it is.  The other properties are left alone. *)
Theorem full_transcript_is_promoted (fetch : string -> JsError + Response)
    (text : string) (result : AnalysisResult) (posted : list string) :
  analyzeTranscription fetch text = (inr result, posted) ->
  truthy_str (full_transcript result) = None
  /\ exists response sent,
       fetch text = inr response /\ json response = inr sent
       /\ others result = others sent
       /\ match truthy_str (full_transcript sent) with
          | Some full => transcription result = Some full
                         /\ full_transcript result = None
          | None => result = sent
          end.
Proof.
  unfold analyzeTranscription.
  destruct (String.eqb text "" || String.eqb (trim text) "")%bool; [discriminate |].
  destruct (fetch text) as [e | response] eqn:Hfetch; [discriminate |].
  destruct (ok response); cbn [negb]; [| discriminate].
  destruct (json response) as [e | sent] eqn:Hjson; [discriminate |].
  intros H. injection H as <- _. unfold promote.
  destruct (truthy_str (full_transcript sent)) as [full |] eqn:Hfull.
  - split; [reflexivity |]. exists response, sent.
    rewrite Hfull. cbn. repeat split; assumption.
  - split; [exact Hfull |]. exists response, sent.
    rewrite Hfull. repeat split; assumption.
Qed.

Lemma full_transcript_is_promoted_witness :
  truthy_str (full_transcript
                {| transcription := Some "whole"; full_transcript := None;
                   others := [] |}) = None
  /\ exists response sent,
       answering {| transcription := Some "cut"; full_transcript := Some "whole";
                    others := [] |} "hello" = inr response
       /\ json response = inr sent
       /\ others {| transcription := Some "whole"; full_transcript := None;
                    others := [] |} = others sent
       /\ match truthy_str (full_transcript sent) with
          | Some full =>
              transcription {| transcription := Some "whole";
                               full_transcript := None; others := [] |} = Some full
              /\ full_transcript {| transcription := Some "whole";
                                    full_transcript := None; others := [] |} = None
          | None => {| transcription := Some "whole"; full_transcript := None;
                       others := [] |} = sent
          end.
Proof.
  apply (full_transcript_is_promoted
           (answering {| transcription := Some "cut"; full_transcript := Some "whole";
                         others := [] |})
           "hello" _ ["hello"]).
  reflexivity.
Defined.

End AnalysisExtras.

(* ================================================================= *)
(** * Concrete runs of the further models *)

Section MoreConcreteRuns.
Import Js.

Example parseInt_leading_digits :
  QuestionGenerator.parseInt "  7 questions" = Some 7%Z.
Proof. reflexivity. Qed.

Example parseInt_not_a_number : QuestionGenerator.parseInt "seven" = None.
Proof. reflexivity. Qed.

Example requested_is_capped :
  QuestionGenerator.requestedQuestions (QuestionGenerator.Text "25") = 10%Z.
Proof. reflexivity. Qed.

Example requested_negative_is_default :
  QuestionGenerator.requestedQuestions (QuestionGenerator.Number (-4) eq_refl) = 3%Z.
Proof. reflexivity. Qed.

(** One question from the model, two asked for: the model's question
    with the default purpose, then the first default question. *)
Example one_generated_one_default :
  map QuestionGenerator.question
    (QuestionGenerator.generateInterviewQuestions (Some "key") (Some "{}")
       (QuestionChecks.parseAny QuestionChecks.oneQuestion)
       "Rocq" "engineer" "technical" 2)
  = ["What is a monad?"; "Tell me about your experience with Rocq."].
Proof. reflexivity. Qed.

(** The base model fails on the audio, the tiny model answers. *)
Example alternative_approach_answers :
  LocalModel.transcribeLocally LocalModel.flaky LocalModel.fresh
  = (LocalModel.Returned {| text := "hello"; chunks := [] |},
     {| LocalModel.transcriber := Some LocalModel.baseModel;
        LocalModel.loading := false |},
     [LocalModel.CreatePipeline LocalModel.baseModel;
      LocalModel.CreateObjectURL;
      LocalModel.RunModel LocalModel.baseModel;
      LocalModel.CreatePipeline LocalModel.tinyModel;
      LocalModel.RunModel LocalModel.tinyModel;
      LocalModel.RevokeObjectURL]).
Proof. reflexivity. Qed.

Example blank_text_is_rejected :
  AnalysisClient.analyzeTranscription
    (AnalysisClient.answering
       {| AnalysisClient.transcription := None;
          AnalysisClient.full_transcript := None;
          AnalysisClient.others := [] |}) "   "
  = (inl AnalysisClient.noTextError, []).
Proof. reflexivity. Qed.

End MoreConcreteRuns.
